(** * Chatbot testing framework: the mock chatbot and the metric helpers

    A shallow embedding of [chatbot/mock_chatbot.py] and
    [chatbot/intent_classifier.py].

    - A Python [str] is a list of code points ([N]); string literals of the
      source are written [lit "..."].
    - A raised exception is the [Raise] case of [result]; code that can raise
      ([d[k]], [l[0]], [raise ValueError]) lives in that monad.
    - [self.context], [self.intents], [self.responses] and the confusion
      matrix are Python dicts: finite maps ([gmap]) keyed by [str].
    - The Unicode-dependent builtins ([str.lower], [str.upper],
      [str.capitalize], and the alphanumeric test behind the regex class
      [\w]) are not part of the repository; they are the operations of the
      class [PyText]; [PyTextLaws] says what they do on ASCII,
      and is assumed only where a proof evaluates them. *)

From Stdlib Require Import NArith QArith.
From stdpp Require Import base option list strings gmap.

Local Open Scope N_scope.
Local Open Scope nat_scope.

(** ** Python strings *)

Definition char := N.
Definition str := list N.

(** A literal of the source (ASCII only). *)
Definition lit (s : string) : str :=
  map Ascii.N_of_ascii (String.list_ascii_of_string s).

Fixpoint str_eqb (a b : str) : bool :=
  match a, b with
  | [], [] => true
  | x :: a', y :: b' => N.eqb x y && str_eqb a' b'
  | _, _ => false
  end.

(** [s.startswith(p)] *)
Fixpoint startswith (p s : str) : bool :=
  match p, s with
  | [], _ => true
  | x :: p', y :: s' => N.eqb x y && startswith p' s'
  | _ :: _, [] => false
  end.

(** [sub in s] *)
Fixpoint contains (sub s : str) : bool :=
  startswith sub s ||
  match s with
  | [] => false
  | _ :: s' => contains sub s'
  end.

(** [str.isspace] on one code point: the code points CPython treats as
    white space in [strip()] and [split()]. *)
Definition isspace (c : char) : bool :=
  ((9 <=? c) && (c <=? 13) || (28 <=? c) && (c <=? 32) ||
   (c =? 133) || (c =? 160) || (c =? 5760) ||
   (8192 <=? c) && (c <=? 8202) || (c =? 8232) || (c =? 8233) ||
   (c =? 8239) || (c =? 8287) || (c =? 12288))%N.

Fixpoint lstrip (s : str) : str :=
  match s with
  | [] => []
  | c :: s' => if isspace c then lstrip s' else s
  end.

(** [s.strip()] *)
Definition strip (s : str) : str := rev (lstrip (rev (lstrip s))).

(** [s.split()]: the maximal runs of non-space code points.  [cur] is the
    run being read, reversed. *)
Fixpoint split_ws_go (s : str) (cur : str) : list str :=
  match s with
  | [] => match cur with [] => [] | _ => [rev cur] end
  | c :: s' =>
      if isspace c
      then match cur with
           | [] => split_ws_go s' []
           | _ => rev cur :: split_ws_go s' []
           end
      else split_ws_go s' (c :: cur)
  end.

Definition split_ws (s : str) : list str := split_ws_go s [].

(** [s.split(sep)] for a non-empty [sep]: left to right, occurrences do not
    overlap.  [skip] counts the code points of a separator still to drop. *)
Fixpoint split_go (sep s : str) (skip : nat) (cur : str) : list str :=
  match s with
  | [] => [rev cur]
  | c :: s' =>
      match skip with
      | S k => split_go sep s' k cur
      | O =>
          if startswith sep s
          then rev cur :: split_go sep s' (length sep - 1) []
          else split_go sep s' 0 (c :: cur)
      end
  end.

Definition split (sep s : str) : list str := split_go sep s 0 [].

(** The part of [s] before the first occurrence of [sep] (all of [s] when
    there is none). *)
Fixpoint before_first (sep s : str) : str :=
  match s with
  | [] => []
  | c :: s' => if startswith sep s then [] else c :: before_first sep s'
  end.

(** ** ASCII case conversion *)

Definition is_ascii (s : str) : bool := forallb (λ c, (c <? 128)%N) s.

Definition ascii_lower (c : char) : char :=
  if ((65 <=? c) && (c <=? 90))%N then (c + 32)%N else c.

Definition ascii_upper (c : char) : char :=
  if ((97 <=? c) && (c <=? 122))%N then (c - 32)%N else c.

Definition ascii_alnum (c : char) : bool :=
  ((48 <=? c) && (c <=? 57) || (65 <=? c) && (c <=? 90) ||
   (97 <=? c) && (c <=? 122))%N.

Definition ascii_capitalize (s : str) : str :=
  match s with
  | [] => []
  | c :: s' => ascii_upper c :: map ascii_lower s'
  end.

(** ** The Unicode builtins, as an interface *)

Class PyText := {
  lower : str → str;          (* str.lower() *)
  upper : str → str;          (* str.upper() *)
  capitalize : str → str;     (* str.capitalize() *)
  isalnum : char → bool       (* str.isalnum() on one code point *)
}.

(** What the builtins do on ASCII text. *)
Class PyTextLaws `{PyText} : Prop := {
  lower_ascii : ∀ s, is_ascii s = true → lower s = map ascii_lower s;
  upper_ascii : ∀ s, is_ascii s = true → upper s = map ascii_upper s;
  capitalize_ascii :
    ∀ s, is_ascii s = true → capitalize s = ascii_capitalize s;
  isalnum_ascii : ∀ c, (c < 128)%N → isalnum c = ascii_alnum c
}.

(** ** Exceptions *)

Inductive exn := IndexError | KeyError | ValueError | ZeroDivisionError.

Inductive result (A : Type) :=
  | Ok (a : A)
  | Raise (e : exn).
Arguments Ok {A} a.
Arguments Raise {A} e.

#[export] Instance result_ret : MRet result := λ A a, Ok a.
#[export] Instance result_bind : MBind result := λ A B k r,
  match r with
  | Ok a => k a
  | Raise e => Raise e
  end.

(** [l[i]] for [i >= 0] *)
Definition list_getitem {A} (l : list A) (i : nat) : result A :=
  match l !! i with
  | Some x => Ok x
  | None => Raise IndexError
  end.

(** [d[k]] *)
Definition dict_getitem {A} (d : gmap str A) (k : str) : result A :=
  match d !! k with
  | Some x => Ok x
  | None => Raise KeyError
  end.

(** [a or b] and [a and b] where evaluating an operand may raise: the right
    operand is evaluated only when the left one does not decide. *)
Definition or_else (a b : result bool) : result bool :=
  a ≫= λ x : bool, if x then mret true else b.

Definition and_then (a b : result bool) : result bool :=
  a ≫= λ x : bool, if x then b else mret false.

(** ** [MockChatbot] *)

(** The intent labels. *)
Definition greeting : str := lit "greeting".
Definition goodbye : str := lit "goodbye".
Definition thanks : str := lit "thanks".
Definition help : str := lit "help".
Definition booking : str := lit "booking".
Definition status : str := lit "status".
Definition cancel : str := lit "cancel".
Definition question : str := lit "question".
Definition weather : str := lit "weather".
Definition name_introduction : str := lit "name_introduction".
Definition name_query : str := lit "name_query".
Definition booking_time : str := lit "booking_time".
Definition unknown : str := lit "unknown".

(** The closed intent set of the data model. *)
Definition intent_set : list str :=
  [greeting; goodbye; thanks; help; booking; status; cancel; question;
   weather; name_introduction; name_query; booking_time; unknown].

(** [self.intents], set in [__init__] and never written afterwards. *)
Definition intents : gmap str (list str) :=
  list_to_map
    [(greeting, [lit "hello"; lit "hi"; lit "hey"; lit "good morning";
                 lit "good evening"]);
     (goodbye, [lit "bye"; lit "goodbye"; lit "see you"; lit "farewell"]);
     (thanks, [lit "thank you"; lit "thanks"; lit "appreciate"]);
     (help, [lit "help"; lit "assist"; lit "support"]);
     (booking, [lit "book"; lit "schedule"; lit "appointment"; lit "meeting"]);
     (status, [lit "status"; lit "update"; lit "progress"]);
     (cancel, [lit "cancel"; lit "stop"; lit "abort"]);
     (question, [lit "what"; lit "how"; lit "why"; lit "when"; lit "where";
                 lit "who"]);
     (name_query, [lit "my name"; lit "what's my name"; lit "who am i"]);
     (weather, [lit "weather"; lit "forecast"; lit "temperature"; lit "rain"])].

(** The weather reply; code point 176 is the degree sign. *)
Definition weather_reply : str :=
  lit "The weather today is sunny with a high of 25" ++ [176%N] ++ lit "C.".

(** [self.responses], set in [__init__] and never written afterwards. *)
Definition responses : gmap str str :=
  list_to_map
    [(greeting, lit "Hello! How can I help you today?");
     (goodbye, lit "Goodbye! Have a great day!");
     (thanks, lit "You're welcome! Happy to help!");
     (help, lit "I can help you with bookings, questions, and general inquiries. What do you need?");
     (booking, lit "I'd be happy to help you book. When would you like to schedule?");
     (status, lit "Let me check the status for you.");
     (cancel, lit "Your request has been cancelled.");
     (question, lit "That's a great question. Let me help you with that.");
     (weather, weather_reply);
     (unknown, lit "I'm not sure I understand. Could you rephrase that?")].

(** [any(k in m for k in ks)] and [any(m.startswith(k) for k in ks)] *)
Definition any_in (ks : list str) (m : str) : bool :=
  existsb (λ k, contains k m) ks.

Definition any_startswith (ks : list str) (m : str) : bool :=
  existsb (λ k, startswith k m) ks.

Definition question_words : list str :=
  [lit "what"; lit "how"; lit "why"; lit "when"; lit "where"; lit "who"].

(** The loop [for intent in ["status", "cancel"]] of [get_intent]: the first
    label one of whose keywords occurs in [m]. *)
Fixpoint other_intents (labels : list str) (m : str) : result (option str) :=
  match labels with
  | [] => mret None
  | intent :: labels' =>
      dict_getitem intents intent ≫= λ keywords,
      if any_in keywords m then mret (Some intent)
      else other_intents labels' m
  end.

(** The four tests of [get_intent] that come before the help test. *)
Definition name_introduction_rule (m : str) : bool :=
  contains (lit "my name is") m
  || (contains (lit "i am") m && (length (split_ws m) <=? 3))
  || contains (lit "i'm") m
  || contains (lit "call me") m.

Definition name_query_rule (m : str) : result bool :=
  dict_getitem intents name_query ≫= λ phrases, mret (any_in phrases m).

Definition thanks_rule (m : str) : result bool :=
  or_else (mret (contains (lit "thank") m))
    (or_else
       (and_then (mret (contains (lit "thanks") m))
          (list_getitem (split (lit "thanks") m) 0 ≫= λ before,
           mret (negb (contains (lit "help") before))))
       (mret (contains (lit "appreciate") m))).

Definition help_rule (m : str) : bool :=
  (contains (lit "help") m || contains (lit "assist") m
   || contains (lit "support") m)
  && negb (contains (lit "thank") m).

Section Chatbot.
Context `{PyText}.

(** [MockChatbot.get_intent] *)
Definition get_intent (message : str) : result str :=
  let message_lower := strip (lower message) in
  if name_introduction_rule message_lower then mret name_introduction else
  name_query_rule message_lower ≫= λ is_name_query : bool,
  if is_name_query then mret name_query else
  thanks_rule message_lower ≫= λ is_thanks : bool,
  if is_thanks then mret thanks else
  if help_rule message_lower then mret help else
  if startswith (lit "good") message_lower
     && (contains (lit "bye") message_lower
         || str_eqb message_lower (lit "goodbye"))
  then mret goodbye else
  if any_in [lit "bye"; lit "farewell"; lit "see you"] message_lower
  then mret goodbye else
  dict_getitem intents weather ≫= λ weather_keywords,
  if any_in weather_keywords message_lower then mret weather else
  dict_getitem intents booking ≫= λ booking_keywords,
  if any_in booking_keywords message_lower then mret booking else
  if startswith (lit "hi") message_lower
     || startswith (lit "hello") message_lower
     || startswith (lit "hey") message_lower
  then mret greeting else
  if startswith (lit "good") message_lower
     && (contains (lit "morning") message_lower
         || contains (lit "evening") message_lower
         || contains (lit "afternoon") message_lower)
  then mret greeting else
  if any_startswith question_words message_lower then mret question else
  other_intents [status; cancel] message_lower ≫= λ found,
  match found with
  | Some intent => mret intent
  | None => mret unknown
  end.

(** The regex class [\w]. *)
Definition is_word (c : char) : bool := isalnum c || (c =? 95)%N.

(** The greedy group [(\w+)] read at the start of [s]. *)
Fixpoint take_word (s : str) : str :=
  match s with
  | [] => []
  | c :: s' => if is_word c then c :: take_word s' else []
  end.

(** A pattern [p (\w+)], [p] a literal, matched at the start of [s]: the
    captured group. *)
Definition match_here (p s : str) : option str :=
  if startswith p s
  then match take_word (drop (length p) s) with
       | [] => None
       | w => Some w
       end
  else None.

(** [re.search]: the match at the leftmost position that has one. *)
Fixpoint re_search (p s : str) : option str :=
  match match_here p s with
  | Some w => Some w
  | None =>
      match s with
      | [] => None
      | _ :: s' => re_search p s'
      end
  end.

(** The literal parts of the four patterns of [extract_name]; each is
    followed by the group [(\w+)]. *)
Definition patterns : list str :=
  [lit "my name is "; lit "i am "; lit "i'm "; lit "call me "].

(** The loop [for pattern in patterns] of [extract_name]. *)
Fixpoint first_match (ps : list str) (s : str) : option str :=
  match ps with
  | [] => None
  | p :: ps' =>
      match re_search p s with
      | Some w => Some (capitalize w)
      | None => first_match ps' s
      end
  end.

(** [MockChatbot.extract_name] *)
Definition extract_name (message : str) : option str :=
  first_match patterns (lower message).

End Chatbot.

(** ** The session state *)

(** A value stored in [self.context]: a string or a boolean. *)
Inductive value :=
  | VStr (s : str)
  | VBool (b : bool).

(** A record of [self.conversation_history]: a dict with the three keys
    ["role"], ["content"] and ["intent"]. *)
Record turn := Turn { role : str; content : str; intent : str }.

(** The two attributes of a [MockChatbot] that change after [__init__]. *)
Record MockChatbot := Session {
  conversation_history : list turn;
  context : gmap str value
}.

(** [MockChatbot.__init__] *)
Definition init : MockChatbot :=
  {| conversation_history := []; context := ∅ |}.

Definition user : str := lit "user".
Definition assistant : str := lit "assistant".

(** The keys of [self.context] named in the source. *)
Definition key_user_name : str := lit "user_name".
Definition key_booking_started : str := lit "booking_started".
Definition key_booking_time : str := lit "booking_time".

(** Truth value of a Python value in a condition. *)
Definition truthy (v : value) : bool :=
  match v with
  | VBool b => b
  | VStr s => negb (str_eqb s [])
  end.

(** A value inside an f-string. *)
Definition format (v : value) : str :=
  match v with
  | VStr s => s
  | VBool true => lit "True"
  | VBool false => lit "False"
  end.

Definition time_indicators : list str :=
  [lit "tomorrow"; lit "today"; lit "monday"; lit "tuesday"; lit "wednesday";
   lit "thursday"; lit "friday"; lit "saturday"; lit "sunday"; lit "pm";
   lit "am"; lit "morning"; lit "afternoon"; lit "evening"; lit "at ";
   lit " at"; lit "1pm"; lit "2pm"; lit "3pm"; lit "4pm"; lit "5pm";
   lit "6pm"; lit "7pm"; lit "8pm"; lit "9pm"; lit "10pm"; lit "11pm";
   lit "12pm"; lit "1am"; lit "2am"; lit "3am"; lit "4am"; lit "5am";
   lit "6am"; lit "7am"; lit "8am"; lit "9am"; lit "10am"; lit "11am";
   lit "12am"].

Definition scheduling_prompt : str :=
  lit "I'd be happy to help you book. When would you like to schedule?".
Definition confirmation : str :=
  lit "Great! Your booking is confirmed. You'll receive a confirmation email shortly.".
Definition specify_time : str :=
  lit "Please specify when you'd like to book (e.g., 'tomorrow at 2pm')".

Section Session.
Context `{PyText}.

(** The first lines of [generate_response]: the intent of the turn, the
    resolver's unless the session is booking and the text looks like a
    time. *)
Definition turn_intent (self : MockChatbot) (message : str) : result str :=
  let in_booking_mode :=
    default (VBool false) (context self !! key_booking_started) in
  let is_question := any_startswith question_words (lower message) in
  let looks_like_time :=
    truthy in_booking_mode && any_in time_indicators (lower message)
    && negb is_question in
  if looks_like_time then mret booking_time else get_intent message.

(** The [if]/[elif] chain of [generate_response]: the context after the turn
    and the reply. *)
Definition dispatch (ctx : gmap str value) (message label : str)
  : result (gmap str value * str) :=
  if str_eqb label name_introduction then
    match extract_name message with
    | Some name =>
        if truthy (VStr name)
        then mret (<[key_user_name := VStr name]> ctx,
                   lit "Nice to meet you, " ++ name
                   ++ lit "! How can I help you today?")
        else mret (ctx, lit "Nice to meet you! What's your name?")
    | None => mret (ctx, lit "Nice to meet you! What's your name?")
    end
  else if str_eqb label name_query then
    match ctx !! key_user_name with
    | Some _ =>
        dict_getitem ctx key_user_name ≫= λ name,
        mret (ctx, lit "Your name is " ++ format name ++ lit "!")
    | None =>
        mret (ctx, lit "I don't know your name yet. What should I call you?")
    end
  else if str_eqb label booking_time then
    mret (<[key_booking_started := VBool false]>
            (<[key_booking_time := VStr message]> ctx),
          confirmation)
  else if str_eqb label booking then
    if negb (truthy (default (VBool false) (ctx !! key_booking_started)))
    then mret (<[key_booking_started := VBool true]> ctx, scheduling_prompt)
    else mret (ctx, specify_time)
  else if str_eqb label weather then
    mret (ctx, weather_reply)
  else
    dict_getitem responses unknown ≫= λ fallback,
    mret (ctx, default fallback (responses !! label)).

(** [MockChatbot.generate_response]: the session after the call and the
    returned reply. *)
Definition generate_response (self : MockChatbot) (message : str)
  : result (MockChatbot * str) :=
  turn_intent self message ≫= λ label,
  let history :=
    conversation_history self
    ++ [{| role := user; content := message; intent := label |}] in
  dispatch (context self) message label ≫= λ '(ctx, response),
  mret ({| conversation_history :=
             history
             ++ [{| role := assistant; content := response;
                    intent := label |}];
           context := ctx |},
        response).

End Session.

(** [MockChatbot.reset] *)
Definition reset (self : MockChatbot) : MockChatbot :=
  {| conversation_history := []; context := ∅ |}.

(** ** [IntentClassifier] *)

(** [a / b] on two non-negative integers: the quotient as a rational number
    (the float Python returns is this number rounded). *)
Definition truediv (a b : nat) : result Q :=
  match b with
  | O => Raise ZeroDivisionError
  | S _ => Ok (Z.of_nat a # Pos.of_nat b)
  end.

(** [sum(1 for pred, true in pairs if cond(pred, true))] *)
Fixpoint count_if (cond : str → str → bool) (pairs : list (str * str)) : nat :=
  match pairs with
  | [] => 0
  | (pred, true_) :: pairs' =>
      (if cond pred true_ then 1 else 0) + count_if cond pairs'
  end.

(** [IntentClassifier.calculate_accuracy] *)
Definition calculate_accuracy (predictions ground_truth : list str)
  : result Q :=
  if negb (length predictions =? length ground_truth)
  then Raise ValueError
  else if length predictions =? 0 then Ok 0%Q
  else
    let correct := count_if str_eqb (zip predictions ground_truth) in
    truediv correct (length predictions).

(** One iteration of the loop of [get_confusion_matrix]. *)
Definition confusion_step (matrix : gmap str (gmap str nat))
    (item : str * str) : result (gmap str (gmap str nat)) :=
  let '(pred, true_) := item in
  let matrix1 :=
    match matrix !! true_ with
    | None => <[true_ := ∅]> matrix
    | Some _ => matrix
    end in
  dict_getitem matrix1 true_ ≫= λ row,
  let row1 :=
    match row !! pred with
    | None => <[pred := 0]> row
    | Some _ => row
    end in
  dict_getitem row1 pred ≫= λ n,
  mret (<[true_ := <[pred := n + 1]> row1]> matrix1).

Fixpoint confusion_loop (matrix : gmap str (gmap str nat))
    (pairs : list (str * str)) : result (gmap str (gmap str nat)) :=
  match pairs with
  | [] => mret matrix
  | item :: pairs' =>
      confusion_step matrix item ≫= λ matrix', confusion_loop matrix' pairs'
  end.

(** [IntentClassifier.get_confusion_matrix] *)
Definition get_confusion_matrix (predictions ground_truth : list str)
  : result (gmap str (gmap str nat)) :=
  confusion_loop ∅ (zip predictions ground_truth).

(** [IntentClassifier.calculate_precision_recall] *)
Definition calculate_precision_recall (predictions ground_truth : list str)
    (label : str) : result (Q * Q) :=
  let pairs := zip predictions ground_truth in
  let true_positive :=
    count_if (λ pred true_, str_eqb pred label && str_eqb true_ label) pairs in
  let false_positive :=
    count_if (λ pred true_, str_eqb pred label && negb (str_eqb true_ label))
      pairs in
  let false_negative :=
    count_if (λ pred true_, negb (str_eqb pred label) && str_eqb true_ label)
      pairs in
  (if 0 <? true_positive + false_positive
   then truediv true_positive (true_positive + false_positive)
   else Ok 0%Q) ≫= λ precision,
  (if 0 <? true_positive + false_negative
   then truediv true_positive (true_positive + false_negative)
   else Ok 0%Q) ≫= λ recall,
  mret (precision, recall).

(** ** An implementation of the Unicode builtins

    Case conversion as CPython does it on the code points below U+0100 and
    on U+0130, U+0131, U+017F and U+212A.  The tables stop there: any other
    code point is mapped to itself and is not alphanumeric, which is not
    what CPython does for the letters of other scripts.  The instance meets
    [PyTextLaws] and serves to evaluate the functions above on concrete
    texts; every theorem below is stated for an arbitrary [PyText]. *)

Definition lower_cp (c : char) : str :=
  if ((65 <=? c) && (c <=? 90))%N then [(c + 32)%N]
  else if ((192 <=? c) && (c <=? 222) && negb (c =? 215))%N then [(c + 32)%N]
  else if (c =? 304)%N then [105%N; 775%N]
  else if (c =? 8490)%N then [107%N]
  else [c].

Definition upper_cp (c : char) : str :=
  if ((97 <=? c) && (c <=? 122))%N then [(c - 32)%N]
  else if (c =? 181)%N then [924%N]
  else if (c =? 223)%N then [83%N; 83%N]
  else if ((224 <=? c) && (c <=? 254) && negb (c =? 247))%N then [(c - 32)%N]
  else if (c =? 255)%N then [376%N]
  else if (c =? 305)%N then [73%N]
  else if (c =? 383)%N then [83%N]
  else [c].

Definition title_cp (c : char) : str :=
  if (c =? 223)%N then [83%N; 115%N] else upper_cp c.

Definition latin1_lower (s : str) : str := flat_map lower_cp s.
Definition latin1_upper (s : str) : str := flat_map upper_cp s.

Definition latin1_capitalize (s : str) : str :=
  match s with
  | [] => []
  | c :: s' => title_cp c ++ latin1_lower s'
  end.

Definition latin1_isalnum (c : char) : bool :=
  ascii_alnum c
  || ((c =? 170) || (c =? 178) || (c =? 179) || (c =? 181) || (c =? 185)
      || (c =? 186) || (188 <=? c) && (c <=? 190)
      || (192 <=? c) && (c <=? 214) || (216 <=? c) && (c <=? 246)
      || (248 <=? c) && (c <=? 255))%N.

Definition latin1_text : PyText :=
  {| lower := latin1_lower;
     upper := latin1_upper;
     capitalize := latin1_capitalize;
     isalnum := latin1_isalnum |}.

(** ** The rule cascade

    The rules of the resolver as plain tests on the lower-cased, trimmed
    text, with nothing that can raise. *)

Definition rule_name_query (t : str) : bool :=
  any_in [lit "my name"; lit "what's my name"; lit "who am i"] t.

Definition rule_thanks (t : str) : bool :=
  contains (lit "thank") t
  || (contains (lit "thanks") t
      && negb (contains (lit "help") (before_first (lit "thanks") t)))
  || contains (lit "appreciate") t.

Definition rule_goodbye (t : str) : bool :=
  startswith (lit "good") t
  && (contains (lit "bye") t || str_eqb t (lit "goodbye"))
  || any_in [lit "bye"; lit "farewell"; lit "see you"] t.

Definition rule_weather (t : str) : bool :=
  any_in [lit "weather"; lit "forecast"; lit "temperature"; lit "rain"] t.

Definition rule_booking (t : str) : bool :=
  any_in [lit "book"; lit "schedule"; lit "appointment"; lit "meeting"] t.

Definition rule_greeting (t : str) : bool :=
  startswith (lit "hi") t || startswith (lit "hello") t
  || startswith (lit "hey") t
  || startswith (lit "good") t
     && (contains (lit "morning") t || contains (lit "evening") t
         || contains (lit "afternoon") t).

Definition rule_question (t : str) : bool := any_startswith question_words t.

Definition rule_status (t : str) : bool :=
  any_in [lit "status"; lit "update"; lit "progress"] t.

Definition rule_cancel (t : str) : bool :=
  any_in [lit "cancel"; lit "stop"; lit "abort"] t.

(** First match wins. *)
Definition resolve (t : str) : str :=
  if name_introduction_rule t then name_introduction
  else if rule_name_query t then name_query
  else if rule_thanks t then thanks
  else if help_rule t then help
  else if rule_goodbye t then goodbye
  else if rule_weather t then weather
  else if rule_booking t then booking
  else if rule_greeting t then greeting
  else if rule_question t then question
  else if rule_status t then status
  else if rule_cancel t then cancel
  else unknown.

(** No rule of the cascade applies to [t]. *)
Definition no_rule_matches (t : str) : bool :=
  negb (name_introduction_rule t || rule_name_query t || rule_thanks t
        || help_rule t || rule_goodbye t || rule_weather t || rule_booking t
        || rule_greeting t || rule_question t || rule_status t
        || rule_cancel t).

(** ** Sequences of calls *)

(** One [generate_response] per utterance, in order, on the same session. *)
Fixpoint process_all `{PyText} (self : MockChatbot) (messages : list str)
  : result MockChatbot :=
  match messages with
  | [] => mret self
  | message :: messages' =>
      generate_response self message ≫= λ '(self', _),
      process_all self' messages'
  end.

(** The calls a caller can make on a session. *)
Inductive op :=
  | OpProcess (message : str)
  | OpReset.

Fixpoint run `{PyText} (self : MockChatbot) (ops : list op)
  : result MockChatbot :=
  match ops with
  | [] => mret self
  | OpProcess message :: ops' =>
      generate_response self message ≫= λ '(self', _), run self' ops'
  | OpReset :: ops' => run (reset self) ops'
  end.

(** ** Counting agreeing positions *)

(** The number of [i < n] with [f i]. *)
Fixpoint count_upto (f : nat → bool) (n : nat) : nat :=
  match n with
  | O => 0
  | S k => count_upto f k + (if f k then 1 else 0)
  end.

(** The number of positions of [predictions] at which the two sequences
    hold the same label. *)
Definition agreeing_positions (predictions ground_truth : list str) : nat :=
  count_upto (λ i, bool_decide (predictions !! i = ground_truth !! i))
    (length predictions).

(** ** The name extractor as the contract words it

    "Applies, in order, patterns matching ... case-insensitive; returns the
    first match's captured word with first letter capitalized, rest
    unchanged": the patterns are matched against the text itself, the
    letters of the literal compared without regard to case, and the word is
    the one standing in the text. *)

Section Contract.
Context `{PyText}.

Definition match_here_ci (p s : str) : option str :=
  if str_eqb (lower (take (length p) s)) p
  then match take_word (drop (length p) s) with
       | [] => None
       | w => Some w
       end
  else None.

Fixpoint re_search_ci (p s : str) : option str :=
  match match_here_ci p s with
  | Some w => Some w
  | None =>
      match s with
      | [] => None
      | _ :: s' => re_search_ci p s'
      end
  end.

(** First letter capitalized, rest unchanged. *)
Definition capitalize_first (w : str) : str :=
  match w with
  | [] => []
  | c :: w' => upper [c] ++ w'
  end.

Fixpoint first_match_contract (ps : list str) (s : str) : option str :=
  match ps with
  | [] => None
  | p :: ps' =>
      match re_search_ci p s with
      | Some w => Some (capitalize_first w)
      | None => first_match_contract ps' s
      end
  end.

Definition extract_name_contract (message : str) : option str :=
  first_match_contract patterns message.

End Contract.

(** The first letter in upper case, the rest as it is (ASCII). *)
Definition ascii_capitalize_first (w : str) : str :=
  match w with
  | [] => []
  | c :: w' => ascii_upper c :: w'
  end.

(** ** The other methods of [MockChatbot] *)

(** [MockChatbot.get_conversation_history] and [MockChatbot.get_context]
    hand out the two attributes. *)
Definition get_conversation_history (self : MockChatbot) : list turn :=
  conversation_history self.

Definition get_context (self : MockChatbot) : gmap str value := context self.

(** [MockChatbot.get_response_length]: [len(response.split())] *)
Definition get_response_length (response : str) : nat :=
  length (split_ws response).

(** [MockChatbot.calculate_confidence]; the float literals 0.3, 0.95 and
    0.85 as the decimal fractions they are written as. *)
Definition calculate_confidence (label : str) : Q :=
  if str_eqb label (lit "unknown") then 3 # 10
  else if existsb (str_eqb label) [lit "greeting"; lit "goodbye"; lit "thanks"]
  then 95 # 100
  else 85 # 100.

(** ** [Conversation] *)

Module Conversation.

Record t := Make { chatbot : MockChatbot; last_response : str }.

(** [Conversation.__init__] *)
Definition init : t := {| chatbot := init; last_response := [] |}.

(** [Conversation.send] *)
Definition send `{PyText} (self : t) (message : str) : result (t * str) :=
  generate_response (chatbot self) message ≫= λ '(bot, response),
  mret ({| chatbot := bot; last_response := response |}, response).

(** [Conversation.get_history] *)
Definition get_history (self : t) : list turn :=
  get_conversation_history (chatbot self).

(** [Conversation.get_context] *)
Definition get_context (self : t) : gmap str value :=
  get_context (chatbot self).

(** [Conversation.reset] *)
Definition reset (self : t) : t :=
  {| chatbot := reset (chatbot self); last_response := [] |}.

(** The calls a caller can make on a conversation. *)
Inductive call :=
  | Send (message : str)
  | Clear.

Fixpoint run `{PyText} (self : t) (calls : list call) : result t :=
  match calls with
  | [] => mret self
  | Send message :: calls' =>
      send self message ≫= λ '(self', _), run self' calls'
  | Clear :: calls' => run (reset self) calls'
  end.

End Conversation.

(** ** [IntentClassifier.get_intent_distribution] *)

(** The loop [for intent in intents]. *)
Fixpoint distribution_loop (distribution : gmap str nat) (labels : list str)
  : gmap str nat :=
  match labels with
  | [] => distribution
  | label :: labels' =>
      distribution_loop
        (<[label := default 0 (distribution !! label) + 1]> distribution)
        labels'
  end.

Definition get_intent_distribution (labels : list str) : gmap str nat :=
  distribution_loop ∅ labels.

(** ** Notions used in the statements below *)

(** The number of elements of [labels] equal to [label]. *)
Fixpoint occurrences (label : str) (labels : list str) : nat :=
  match labels with
  | [] => 0
  | x :: labels' => (if str_eqb x label then 1 else 0) + occurrences label labels'
  end.

(** The entry [matrix[true][pred]] of a confusion matrix, 0 where the row or
    the entry is missing. *)
Definition entry (matrix : gmap str (gmap str nat)) (true_ pred : str) : nat :=
  default 0 (matrix !! true_ ≫= λ row, row !! pred).

(** The values a session stores: a non-empty string under [user_name], a
    boolean under [booking_started], a string under [booking_time], and
    nothing else. *)
Definition well_formed (ctx : gmap str value) : Prop :=
  ∀ k v, ctx !! k = Some v →
    (k = key_user_name ∧ ∃ name, v = VStr name ∧ name ≠ [])
    ∨ (k = key_booking_started ∧ ∃ b, v = VBool b)
    ∨ (k = key_booking_time ∧ ∃ text, v = VStr text).

(** The session is in the middle of a booking. *)
Definition in_booking_mode (ctx : gmap str value) : bool :=
  truthy (default (VBool false) (ctx !! key_booking_started)).

(** The text looks like a time to [generate_response]. *)
Definition time_like `{PyText} (message : str) : bool :=
  any_in time_indicators (lower message)
  && negb (any_startswith question_words (lower message)).

(** The nine ways through the [if]/[elif] chain of [generate_response]:
    the intent of the turn, the context before and after, the reply. *)
Inductive dispatch_case `{PyText} (ctx : gmap str value) (message : str)
  : str → gmap str value → str → Prop :=
  | case_name_stored name :
      extract_name message = Some name → name ≠ [] →
      dispatch_case ctx message name_introduction
        (<[key_user_name := VStr name]> ctx)
        (lit "Nice to meet you, " ++ name
         ++ lit "! How can I help you today?")
  | case_name_missing :
      extract_name message = None ∨ extract_name message = Some [] →
      dispatch_case ctx message name_introduction ctx
        (lit "Nice to meet you! What's your name?")
  | case_name_known name :
      ctx !! key_user_name = Some name →
      dispatch_case ctx message name_query ctx
        (lit "Your name is " ++ format name ++ lit "!")
  | case_name_unknown :
      ctx !! key_user_name = None →
      dispatch_case ctx message name_query ctx
        (lit "I don't know your name yet. What should I call you?")
  | case_booking_time :
      dispatch_case ctx message booking_time
        (<[key_booking_started := VBool false]>
           (<[key_booking_time := VStr message]> ctx))
        confirmation
  | case_booking_start :
      in_booking_mode ctx = false →
      dispatch_case ctx message booking
        (<[key_booking_started := VBool true]> ctx) scheduling_prompt
  | case_booking_again :
      in_booking_mode ctx = true →
      dispatch_case ctx message booking ctx specify_time
  | case_weather :
      dispatch_case ctx message weather ctx weather_reply
  | case_canned label reply :
      label ≠ name_introduction → label ≠ name_query →
      label ≠ booking_time → label ≠ booking → label ≠ weather →
      reply = default (lit "I'm not sure I understand. Could you rephrase that?")
                (responses !! label) →
      dispatch_case ctx message label ctx reply.

(** The shape the tests ask of a reply. *)
Definition starts_with_capital (reply : str) : Prop :=
  ∃ c rest, reply = c :: rest ∧ (65 ≤ c)%N ∧ (c ≤ 90)%N.

Definition ends_with_punctuation (reply : str) : Prop :=
  last reply = Some 46%N ∨ last reply = Some 33%N ∨ last reply = Some 63%N.

(** A call on a conversation as the call it makes on its chatbot. *)
Definition call_op (c : Conversation.call) : op :=
  match c with
  | Conversation.Send message => OpProcess message
  | Conversation.Clear => OpReset
  end.

(** [last_response] is the content of the last record of the history, an
    assistant record, or empty when there is none. *)
Definition last_response_in_step (self : Conversation.t) : Prop :=
  match last (Conversation.get_history self) with
  | Some record =>
      role record = assistant
      ∧ content record = Conversation.last_response self
  | None => Conversation.last_response self = []
  end.

(** No row of the matrix stores a zero. *)
Definition no_zero_entry (matrix : gmap str (gmap str nat)) : Prop :=
  ∀ t row p n, matrix !! t = Some row → row !! p = Some n → 0 < n.

(** * Properties *)

(** ** The laws hold for [latin1_text] *)

(** Case analysis on every comparison of code points in the goal. *)
Ltac cp_cases :=
  repeat (match goal with
          | |- context [(?a <=? ?b)%N] => destruct (N.leb_spec a b)
          | |- context [(?a <? ?b)%N] => destruct (N.ltb_spec a b)
          | |- context [(?a =? ?b)%N] => destruct (N.eqb_spec a b)
          end; cbn [andb orb negb] in *);
  try reflexivity; try lia.

Lemma lower_cp_ascii (c : char) : (c < 128)%N → lower_cp c = [ascii_lower c].
Proof. intros Hc. unfold lower_cp, ascii_lower. cp_cases. Qed.

Lemma upper_cp_ascii (c : char) : (c < 128)%N → upper_cp c = [ascii_upper c].
Proof. intros Hc. unfold upper_cp, ascii_upper. cp_cases. Qed.

Lemma title_cp_ascii (c : char) : (c < 128)%N → title_cp c = [ascii_upper c].
Proof.
  intros Hc. unfold title_cp.
  destruct (N.eqb_spec c 223); [lia | by apply upper_cp_ascii].
Qed.

Lemma is_ascii_cons (c : char) (s : str) :
  is_ascii (c :: s) = true ↔ (c < 128)%N ∧ is_ascii s = true.
Proof.
  unfold is_ascii. simpl. rewrite andb_true_iff, N.ltb_lt. tauto.
Qed.

Lemma latin1_lower_ascii (s : str) :
  is_ascii s = true → latin1_lower s = map ascii_lower s.
Proof.
  induction s as [|c s IH]; [done|].
  intros [Hc Hs]%is_ascii_cons. unfold latin1_lower in *. simpl.
  rewrite (lower_cp_ascii c Hc), (IH Hs). done.
Qed.

Lemma latin1_upper_ascii (s : str) :
  is_ascii s = true → latin1_upper s = map ascii_upper s.
Proof.
  induction s as [|c s IH]; [done|].
  intros [Hc Hs]%is_ascii_cons. unfold latin1_upper in *. simpl.
  rewrite (upper_cp_ascii c Hc), (IH Hs). done.
Qed.

Lemma latin1_capitalize_ascii (s : str) :
  is_ascii s = true → latin1_capitalize s = ascii_capitalize s.
Proof.
  destruct s as [|c s]; [done|].
  intros [Hc Hs]%is_ascii_cons. simpl.
  rewrite (title_cp_ascii c Hc), (latin1_lower_ascii s Hs). done.
Qed.

Lemma latin1_isalnum_ascii (c : char) :
  (c < 128)%N → latin1_isalnum c = ascii_alnum c.
Proof.
  intros Hc. unfold latin1_isalnum.
  destruct (ascii_alnum c); [done|]. cp_cases.
Qed.

Lemma latin1_laws : @PyTextLaws latin1_text.
Proof.
  split.
  - apply latin1_lower_ascii.
  - apply latin1_upper_ascii.
  - apply latin1_capitalize_ascii.
  - apply latin1_isalnum_ascii.
Qed.

(** ** Strings and the exception monad *)

Lemma bind_Ok {A B} (a : A) (f : A → result B) : (Ok a ≫= f) = f a.
Proof. reflexivity. Qed.

Lemma str_eqb_eq (a b : str) : str_eqb a b = true ↔ a = b.
Proof.
  revert b. induction a as [|x a IH]; intros [|y b]; simpl; try done.
  rewrite andb_true_iff, N.eqb_eq, IH. split.
  - by intros [-> ->].
  - intros [= -> ->]. done.
Qed.

Lemma str_eqb_refl (a : str) : str_eqb a a = true.
Proof. by apply str_eqb_eq. Qed.

Lemma str_eqb_neq (a b : str) : str_eqb a b = false ↔ a ≠ b.
Proof.
  rewrite <- not_true_iff_false, str_eqb_eq. done.
Qed.

(** The first piece of [s.split(sep)] is the part of [s] before the first
    occurrence of [sep]; in particular [s.split(sep)[0]] does not raise. *)
Lemma split_go_head (sep s cur : str) :
  split_go sep s 0 cur !! 0 = Some (rev cur ++ before_first sep s).
Proof.
  revert cur. induction s as [|c s IH]; intros cur.
  - simpl. by rewrite app_nil_r.
  - cbn [split_go before_first]. destruct (startswith sep (c :: s)).
    + simpl. by rewrite app_nil_r.
    + rewrite IH. simpl. by rewrite <- app_assoc.
Qed.

Lemma split_getitem_0 (sep s : str) :
  list_getitem (split sep s) 0 = Ok (before_first sep s).
Proof.
  unfold list_getitem, split. by rewrite split_go_head.
Qed.

(** The lookups of [get_intent] in [self.intents]. *)
Lemma intents_name_query :
  dict_getitem intents name_query
  = Ok [lit "my name"; lit "what's my name"; lit "who am i"].
Proof. by vm_compute. Qed.

Lemma intents_weather :
  dict_getitem intents weather
  = Ok [lit "weather"; lit "forecast"; lit "temperature"; lit "rain"].
Proof. by vm_compute. Qed.

Lemma intents_booking :
  dict_getitem intents booking
  = Ok [lit "book"; lit "schedule"; lit "appointment"; lit "meeting"].
Proof. by vm_compute. Qed.

Lemma intents_status :
  dict_getitem intents status
  = Ok [lit "status"; lit "update"; lit "progress"].
Proof. by vm_compute. Qed.

Lemma intents_cancel :
  dict_getitem intents cancel = Ok [lit "cancel"; lit "stop"; lit "abort"].
Proof. by vm_compute. Qed.

Lemma name_query_rule_ok (t : str) : name_query_rule t = Ok (rule_name_query t).
Proof. unfold name_query_rule. by rewrite intents_name_query. Qed.

Lemma thanks_rule_ok (t : str) : thanks_rule t = Ok (rule_thanks t).
Proof.
  unfold thanks_rule, rule_thanks, or_else, and_then.
  rewrite split_getitem_0, !bind_Ok.
  destruct (contains (lit "thank") t); [done|].
  destruct (contains (lit "thanks") t); [|done].
  rewrite !bind_Ok.
  by destruct (contains (lit "help") (before_first (lit "thanks") t)).
Qed.

Lemma other_intents_ok (t : str) :
  other_intents [status; cancel] t
  = Ok (if rule_status t then Some status
        else if rule_cancel t then Some cancel else None).
Proof.
  cbn [other_intents]. rewrite intents_status, bind_Ok.
  fold (rule_status t). destruct (rule_status t); [done|].
  rewrite intents_cancel, bind_Ok.
  fold (rule_cancel t). by destruct (rule_cancel t).
Qed.

(** [get_intent] never raises: it is the cascade applied to
    [message.lower().strip()]. *)
Lemma get_intent_resolve `{PyText} (message : str) :
  get_intent message = Ok (resolve (strip (lower message))).
Proof.
  unfold get_intent, resolve.
  generalize (strip (lower message)) as t. intros t.
  destruct (name_introduction_rule t); [done|].
  rewrite name_query_rule_ok, bind_Ok.
  destruct (rule_name_query t); [done|].
  rewrite thanks_rule_ok, bind_Ok.
  destruct (rule_thanks t); [done|].
  destruct (help_rule t); [done|].
  unfold rule_goodbye.
  destruct (startswith (lit "good") t
            && (contains (lit "bye") t || str_eqb t (lit "goodbye")));
    [done|].
  rewrite orb_false_l.
  destruct (any_in [lit "bye"; lit "farewell"; lit "see you"] t); [done|].
  rewrite intents_weather, bind_Ok. fold (rule_weather t).
  destruct (rule_weather t); [done|].
  rewrite intents_booking, bind_Ok. fold (rule_booking t).
  destruct (rule_booking t); [done|].
  unfold rule_greeting.
  destruct (startswith (lit "hi") t || startswith (lit "hello") t
            || startswith (lit "hey") t); [done|].
  rewrite orb_false_l.
  destruct (startswith (lit "good") t
            && (contains (lit "morning") t || contains (lit "evening") t
                || contains (lit "afternoon") t)); [done|].
  fold (rule_question t). destruct (rule_question t); [done|].
  rewrite other_intents_ok, bind_Ok.
  destruct (rule_status t); [done|]. by destruct (rule_cancel t).
Qed.

Ltac in_intent_set :=
  unfold intent_set;
  repeat first [apply list_elem_of_here | apply list_elem_of_further].

Lemma resolve_in_intent_set (t : str) : resolve t ∈ intent_set.
Proof.
  unfold resolve.
  repeat match goal with
    | |- (if ?b then _ else _) ∈ _ => destruct b; [in_intent_set|]
    end.
  in_intent_set.
Qed.

Lemma resolve_unknown (t : str) :
  resolve t = unknown ↔ no_rule_matches t = true.
Proof.
  unfold resolve, no_rule_matches.
  repeat match goal with
    | |- (if ?b then _ else _) = _ ↔ _ =>
        destruct b; [split; intros Hx; vm_compute in Hx; discriminate Hx|]
    end.
  done.
Qed.

(** ** C1: the resolver is total *)

(** C1. For every input string [get_intent] returns, without raising, a
    member of the closed intent set, and the result is [unknown] exactly
    when no rule applies to the lower-cased, trimmed text. *)
Theorem get_intent_total `{PyText} (message : str) :
  ∃ label,
    get_intent message = Ok label
    ∧ label ∈ intent_set
    ∧ (no_rule_matches (strip (lower message)) = true → label = unknown)
    ∧ (label = unknown → no_rule_matches (strip (lower message)) = true).
Proof.
  exists (resolve (strip (lower message))).
  split; [apply get_intent_resolve|].
  split; [apply resolve_in_intent_set|].
  split; apply resolve_unknown.
Qed.

(** The empty string and a string of blanks resolve to [unknown]. *)
Lemma get_intent_total_witness :
  @get_intent latin1_text [] = Ok unknown
  ∧ @get_intent latin1_text (lit "   ") = Ok unknown.
Proof.
  split.
  - destruct (@get_intent_total latin1_text []) as (l & Hl & _ & Hu & _).
    rewrite Hl. f_equal. apply Hu. by vm_compute.
  - destruct (@get_intent_total latin1_text (lit "   "))
      as (l & Hl & _ & Hu & _).
    rewrite Hl. f_equal. apply Hu. by vm_compute.
Defined.

(** ** C2: thanks before help *)

Lemma get_intent_ascii `{PyTextLaws} (message : str) :
  is_ascii message = true →
  get_intent message = Ok (resolve (strip (map ascii_lower message))).
Proof.
  intros Ha. by rewrite get_intent_resolve, lower_ascii.
Qed.

(** C2. With [t] the lower-cased, trimmed text: when neither name rule
    applies and [t] contains "thank", or contains "thanks" with no "help"
    before its first occurrence, or contains "appreciate", the intent is
    [thanks]; when no earlier rule applies, [t] contains "help", "assist" or
    "support" and does not contain "thank", the intent is [help].
    "thanks for your help" resolves to [thanks], "I need help" to [help]. *)
Theorem thanks_before_help `{PyTextLaws} (message : str) :
  let t := strip (lower message) in
  (name_introduction_rule t = false → rule_name_query t = false →
   contains (lit "thank") t = true
   ∨ (contains (lit "thanks") t = true
      ∧ contains (lit "help") (before_first (lit "thanks") t) = false)
   ∨ contains (lit "appreciate") t = true →
   get_intent message = Ok thanks)
  ∧ (name_introduction_rule t = false → rule_name_query t = false →
     rule_thanks t = false →
     contains (lit "help") t = true ∨ contains (lit "assist") t = true
     ∨ contains (lit "support") t = true →
     contains (lit "thank") t = false →
     get_intent message = Ok help)
  ∧ get_intent (lit "thanks for your help") = Ok thanks
  ∧ get_intent (lit "I need help") = Ok help.
Proof.
  intros t. repeat split.
  - intros Hintro Hquery Hthanks. rewrite get_intent_resolve. fold t.
    unfold resolve. rewrite Hintro, Hquery.
    assert (rule_thanks t = true) as ->; [|done].
    unfold rule_thanks.
    destruct Hthanks as [-> | [[-> ->] | ->]]; simpl;
      rewrite ?orb_true_r; done.
  - intros Hintro Hquery Hthanks Hhelp Hthank.
    rewrite get_intent_resolve. fold t.
    unfold resolve. rewrite Hintro, Hquery, Hthanks.
    assert (help_rule t = true) as ->; [|done].
    unfold help_rule. rewrite Hthank.
    destruct Hhelp as [-> | [-> | ->]]; simpl; rewrite ?orb_true_r; done.
  - rewrite get_intent_ascii by (by vm_compute). by vm_compute.
  - rewrite get_intent_ascii by (by vm_compute). by vm_compute.
Qed.

(** "Thank you very much" takes the first branch, "please assist me" the
    second. *)
Lemma thanks_before_help_witness :
  @get_intent latin1_text (lit "Thank you very much") = Ok thanks
  ∧ @get_intent latin1_text (lit "please assist me") = Ok help.
Proof.
  split.
  - pose proof (@thanks_before_help latin1_text latin1_laws (lit "Thank you very much"))
      as Hthm.
    cbv zeta in Hthm. destruct Hthm as (Hthanks & _).
    apply Hthanks; [by vm_compute | by vm_compute | left; by vm_compute].
  - pose proof (@thanks_before_help latin1_text latin1_laws (lit "please assist me"))
      as Hthm.
    cbv zeta in Hthm. destruct Hthm as (_ & Hhelp & _).
    apply Hhelp;
      [by vm_compute | by vm_compute | by vm_compute
      | right; left; by vm_compute | by vm_compute].
Defined.

(** ** C7: case *)

Lemma ascii_lower_idemp (c : char) : ascii_lower (ascii_lower c) = ascii_lower c.
Proof. unfold ascii_lower. cp_cases. Qed.

Lemma ascii_lower_upper (c : char) : ascii_lower (ascii_upper c) = ascii_lower c.
Proof. unfold ascii_lower, ascii_upper. cp_cases. Qed.

Lemma ascii_lower_lt (c : char) : (c < 128)%N → (ascii_lower c < 128)%N.
Proof. unfold ascii_lower. cp_cases. Qed.

Lemma ascii_upper_lt (c : char) : (c < 128)%N → (ascii_upper c < 128)%N.
Proof. unfold ascii_upper. cp_cases. Qed.

Lemma is_ascii_map (f : char → char) (s : str) :
  (∀ c, (c < 128)%N → (f c < 128)%N) →
  is_ascii s = true → is_ascii (map f s) = true.
Proof.
  intros Hf. induction s as [|c s IH]; [done|].
  intros [Hc Hs]%is_ascii_cons. simpl map. apply is_ascii_cons. auto.
Qed.

(** On ASCII text the two case conversions agree after lower-casing. *)
Lemma ascii_case_round_trip `{PyTextLaws} (s : str) :
  is_ascii s = true →
  lower (upper s) = lower s ∧ lower (lower s) = lower s.
Proof.
  intros Ha.
  rewrite (upper_ascii s Ha), (lower_ascii s Ha).
  rewrite !lower_ascii
    by (apply is_ascii_map; auto using ascii_lower_lt, ascii_upper_lt).
  rewrite !map_map. split; apply map_ext; intros c.
  - apply ascii_lower_upper.
  - apply ascii_lower_idemp.
Qed.

(** C7, as amended. For every string whose case conversions round-trip
    ([s.upper().lower() == s.lower()] and [s.lower().lower() == s.lower()],
    which every ASCII string does), [get_intent] gives the same result on
    [s], [s.upper()] and [s.lower()]. *)
Theorem get_intent_case_insensitive `{PyText} (s : str) :
  lower (upper s) = lower s → lower (lower s) = lower s →
  get_intent s = get_intent (upper s)
  ∧ get_intent (upper s) = get_intent (lower s).
Proof.
  intros Hup Hlow. rewrite !get_intent_resolve, Hup, Hlow. done.
Qed.

Lemma get_intent_case_insensitive_witness :
  @get_intent latin1_text (lit "Hello There")
  = @get_intent latin1_text (@upper latin1_text (lit "Hello There"))
  ∧ @get_intent latin1_text (@upper latin1_text (lit "Hello There"))
    = @get_intent latin1_text (@lower latin1_text (lit "Hello There")).
Proof.
  apply (@get_intent_case_insensitive latin1_text (lit "Hello There"));
    by vm_compute.
Defined.

(** C7, as stated, fails on the two code points "h", U+0131 (dotless i):
    [upper] gives "HI", which resolves to [greeting], while the string
    itself resolves to [unknown]. *)
Lemma get_intent_case_sensitive_dotless_i :
  @upper latin1_text [104%N; 305%N] = lit "HI"
  ∧ @get_intent latin1_text [104%N; 305%N] = Ok unknown
  ∧ @get_intent latin1_text (@upper latin1_text [104%N; 305%N]) = Ok greeting
  ∧ @get_intent latin1_text [104%N; 305%N]
    ≠ @get_intent latin1_text (@upper latin1_text [104%N; 305%N]).
Proof.
  split; [by vm_compute|]. split; [by vm_compute|]. split; [by vm_compute|].
  intros Heq. vm_compute in Heq. discriminate Heq.
Qed.

(** ** The session: one turn *)

Lemma responses_unknown :
  dict_getitem responses unknown
  = Ok (lit "I'm not sure I understand. Could you rephrase that?").
Proof. by vm_compute. Qed.

(** Every canned reply is a non-empty string. *)
Lemma responses_nonempty (label reply : str) :
  responses !! label = Some reply → reply ≠ [].
Proof.
  intros Hin. apply elem_of_list_to_map_2 in Hin.
  repeat (apply elem_of_cons in Hin as [[= _ ->]|Hin]; [by vm_compute|]).
  by apply elem_of_nil in Hin.
Qed.

(** What one pass through the [if]/[elif] chain does: it does not raise,
    the reply is not empty, the context changes at most at the three named
    keys, and no key is lost. *)
Lemma dispatch_ok `{PyText} (ctx : gmap str value) (message label : str) :
  ∃ ctx' response,
    dispatch ctx message label = Ok (ctx', response)
    ∧ response ≠ []
    ∧ (∀ k, k ≠ key_user_name → k ≠ key_booking_started →
            k ≠ key_booking_time → ctx' !! k = ctx !! k)
    ∧ (∀ k, is_Some (ctx !! k) → is_Some (ctx' !! k)).
Proof.
  unfold dispatch.
  destruct (str_eqb label name_introduction).
  { destruct (extract_name message) as [name|].
    - destruct (truthy (VStr name)).
      + eexists _, _. split; [reflexivity|]. split; [by vm_compute|].
        split.
        * intros k Hk _ _. by rewrite lookup_insert_ne.
        * intros k Hk. rewrite lookup_insert_is_Some'. by right.
      + eexists _, _. split; [reflexivity|]. split; [by vm_compute|]. done.
    - eexists _, _. split; [reflexivity|]. split; [by vm_compute|]. done. }
  destruct (str_eqb label name_query).
  { destruct (ctx !! key_user_name) as [name|] eqn:Hname.
    - unfold dict_getitem. rewrite Hname, bind_Ok.
      eexists _, _. split; [reflexivity|]. split; [by vm_compute|]. done.
    - eexists _, _. split; [reflexivity|]. split; [by vm_compute|]. done. }
  destruct (str_eqb label booking_time).
  { eexists _, _. split; [reflexivity|]. split; [by vm_compute|]. split.
    - intros k _ Hk1 Hk2. by rewrite !lookup_insert_ne.
    - intros k Hk. rewrite !lookup_insert_is_Some'. auto. }
  destruct (str_eqb label booking).
  { destruct (negb _).
    - eexists _, _. split; [reflexivity|]. split; [by vm_compute|]. split.
      + intros k _ Hk _. by rewrite lookup_insert_ne.
      + intros k Hk. rewrite lookup_insert_is_Some'. by right.
    - eexists _, _. split; [reflexivity|]. split; [by vm_compute|]. done. }
  destruct (str_eqb label weather).
  { eexists _, _. split; [reflexivity|]. split; [by vm_compute|]. done. }
  rewrite responses_unknown, bind_Ok.
  eexists _, _. split; [reflexivity|]. split; [|done].
  destruct (responses !! label) as [reply|] eqn:Hreply; simpl.
  - by eapply responses_nonempty.
  - by vm_compute.
Qed.

Lemma turn_intent_ok `{PyText} (self : MockChatbot) (message : str) :
  ∃ label, turn_intent self message = Ok label ∧ label ∈ intent_set.
Proof.
  unfold turn_intent. destruct (_ && _ && _).
  - exists booking_time. split; [done | in_intent_set].
  - rewrite get_intent_resolve. eexists. split; [done|].
    apply resolve_in_intent_set.
Qed.

(** One call of [generate_response]: it returns, and appends a user record
    and an assistant record carrying the same intent. *)
Lemma generate_response_ok `{PyText} (self : MockChatbot) (message : str) :
  ∃ label ctx' response,
    turn_intent self message = Ok label
    ∧ dispatch (context self) message label = Ok (ctx', response)
    ∧ generate_response self message
      = Ok ({| conversation_history :=
                 conversation_history self
                 ++ [{| role := user; content := message; intent := label |};
                     {| role := assistant; content := response;
                        intent := label |}];
               context := ctx' |},
            response).
Proof.
  destruct (turn_intent_ok self message) as (label & Hlabel & _).
  destruct (dispatch_ok (context self) message label)
    as (ctx' & response & Hdispatch & _).
  exists label, ctx', response. split; [done|]. split; [done|].
  unfold generate_response.
  rewrite Hlabel, bind_Ok, Hdispatch, bind_Ok. cbn beta iota.
  by rewrite <- app_assoc.
Qed.

Lemma generate_response_total `{PyText} (self : MockChatbot) (message : str) :
  ∃ self' reply, generate_response self message = Ok (self', reply).
Proof.
  destruct (generate_response_ok self message)
    as (label & ctx' & response & _ & _ & Hgen).
  by eexists _, _.
Qed.

(** ** C8: every input gets a reply *)

(** C8. For every session and every input string, [generate_response]
    returns without raising and the reply is a non-empty string. *)
Theorem generate_response_replies `{PyText} (self : MockChatbot)
    (message : str) :
  ∃ self' reply,
    generate_response self message = Ok (self', reply) ∧ reply ≠ [].
Proof.
  destruct (generate_response_ok self message)
    as (label & ctx' & response & _ & Hdispatch & Hgen).
  destruct (dispatch_ok (context self) message label)
    as (ctx2 & response2 & Hdispatch2 & Hne & _).
  rewrite Hdispatch in Hdispatch2. injection Hdispatch2 as -> ->.
  eexists _, _. split; [exact Hgen | exact Hne].
Qed.

(** ** C3: the two-turn booking flow *)

Lemma dispatch_booking `{PyText} (ctx : gmap str value) (message : str) :
  dispatch ctx message booking
  = if negb (truthy (default (VBool false) (ctx !! key_booking_started)))
    then Ok (<[key_booking_started := VBool true]> ctx, scheduling_prompt)
    else Ok (ctx, specify_time).
Proof.
  unfold dispatch.
  change (str_eqb booking name_introduction) with false.
  change (str_eqb booking name_query) with false.
  change (str_eqb booking booking_time) with false.
  change (str_eqb booking booking) with true.
  done.
Qed.

Lemma dispatch_booking_time `{PyText} (ctx : gmap str value) (message : str) :
  dispatch ctx message booking_time
  = Ok (<[key_booking_started := VBool false]>
          (<[key_booking_time := VStr message]> ctx),
        confirmation).
Proof.
  unfold dispatch.
  change (str_eqb booking_time name_introduction) with false.
  change (str_eqb booking_time name_query) with false.
  change (str_eqb booking_time booking_time) with true.
  done.
Qed.

Lemma key_booking_started_ne_time : key_booking_started ≠ key_booking_time.
Proof. by vm_compute. Qed.

(** C3. On a session where [booking_started] is absent or false,
    "I want to book a meeting" sets [booking_started] to true and is answered
    with the scheduling prompt; on the next turn "Tomorrow at 2pm" (a time
    indicator, no question word in front; the resolver alone would say
    [unknown]) gets the intent [booking_time], is stored verbatim under
    [booking_time], sets [booking_started] to false and is answered with the
    confirmation. *)
Theorem booking_two_turns `{PyTextLaws} (self : MockChatbot) :
  truthy (default (VBool false) (context self !! key_booking_started)) = false →
  let first := lit "I want to book a meeting" in
  let second := lit "Tomorrow at 2pm" in
  ∃ s1 s2,
    generate_response self first = Ok (s1, scheduling_prompt)
    ∧ context s1 !! key_booking_started = Some (VBool true)
    ∧ any_in time_indicators (lower second) = true
    ∧ any_startswith question_words (lower second) = false
    ∧ get_intent second = Ok unknown
    ∧ turn_intent s1 second = Ok booking_time
    ∧ generate_response s1 second = Ok (s2, confirmation)
    ∧ context s2 !! key_booking_time = Some (VStr second)
    ∧ context s2 !! key_booking_started = Some (VBool false)
    ∧ conversation_history s2
      = conversation_history self
        ++ [Turn user first booking; Turn assistant scheduling_prompt booking;
            Turn user second booking_time;
            Turn assistant confirmation booking_time].
Proof.
  intros Hoff first second.
  assert (lower second = lit "tomorrow at 2pm") as Hlower.
  { unfold second. rewrite lower_ascii by (by vm_compute). by vm_compute. }
  assert (turn_intent self first = Ok booking) as Hfirst.
  { unfold turn_intent. rewrite Hoff. cbn [andb].
    unfold first. rewrite get_intent_ascii by (by vm_compute).
    by vm_compute. }
  set (s1 := {| conversation_history :=
                  conversation_history self
                  ++ [Turn user first booking;
                      Turn assistant scheduling_prompt booking];
                context := <[key_booking_started := VBool true]>
                             (context self) |}).
  assert (generate_response self first = Ok (s1, scheduling_prompt)) as Hgen1.
  { unfold generate_response.
    rewrite Hfirst, bind_Ok, dispatch_booking, Hoff. cbn [negb].
    rewrite bind_Ok. cbn beta iota. unfold s1. by rewrite <- app_assoc. }
  assert (turn_intent s1 second = Ok booking_time) as Hsecond.
  { unfold turn_intent. cbn [context s1].
    rewrite lookup_insert_eq, Hlower. by vm_compute. }
  eexists s1, _. split; [exact Hgen1|].
  split; [apply lookup_insert_eq|].
  split; [rewrite Hlower; by vm_compute|].
  split; [rewrite Hlower; by vm_compute|].
  split.
  { unfold second. rewrite get_intent_ascii by (by vm_compute).
    by vm_compute. }
  split; [exact Hsecond|].
  split.
  { unfold generate_response.
    rewrite Hsecond, bind_Ok, dispatch_booking_time, bind_Ok.
    cbn beta iota. reflexivity. }
  cbn [context conversation_history].
  split.
  { rewrite lookup_insert_ne by apply key_booking_started_ne_time.
    apply lookup_insert_eq. }
  split; [apply lookup_insert_eq|].
  unfold s1. cbn [conversation_history]. by rewrite <- !app_assoc.
Qed.

Lemma booking_two_turns_witness :
  ∃ s1 s2,
    @generate_response latin1_text init (lit "I want to book a meeting")
    = Ok (s1, scheduling_prompt)
    ∧ @generate_response latin1_text s1 (lit "Tomorrow at 2pm")
      = Ok (s2, confirmation)
    ∧ context s2 !! key_booking_time = Some (VStr (lit "Tomorrow at 2pm"))
    ∧ context s2 !! key_booking_started = Some (VBool false).
Proof.
  destruct (@booking_two_turns latin1_text latin1_laws init)
    as (s1 & s2 & H1 & _ & _ & _ & _ & _ & H2 & Htime & Hstarted & _);
    [by vm_compute|].
  exists s1, s2. auto.
Defined.

(** ** Sequences of calls *)

Lemma run_total `{PyText} (self : MockChatbot) (ops : list op) :
  ∃ final, run self ops = Ok final.
Proof.
  revert self. induction ops as [|[message|] ops IH]; intros self.
  - by eexists.
  - destruct (generate_response_ok self message)
      as (label & ctx' & response & _ & _ & Hgen).
    cbn [run]. rewrite Hgen, bind_Ok. apply IH.
  - cbn [run]. apply IH.
Qed.

Lemma run_app `{PyText} (self mid : MockChatbot) (ops1 ops2 : list op) :
  run self ops1 = Ok mid → run self (ops1 ++ ops2) = run mid ops2.
Proof.
  revert self. induction ops1 as [|[message|] ops1 IH]; intros self.
  - by intros [= ->].
  - cbn [run app].
    destruct (generate_response self message) as [[self' reply]|e];
      [|done].
    rewrite !bind_Ok. apply IH.
  - cbn [run app]. apply IH.
Qed.

Lemma run_process `{PyText} (self : MockChatbot) (messages : list str) :
  run self (OpProcess <$> messages) = process_all self messages.
Proof.
  revert self. induction messages as [|message messages IH]; intros self.
  - done.
  - cbn [fmap list_fmap run process_all].
    destruct (generate_response self message) as [[self' reply]|e];
      [|done].
    rewrite !bind_Ok. apply IH.
Qed.

(** ** C5: the history *)

(** C5. Processing N utterances with no reset returns, and appends exactly
    2N records to the history (so a history that was empty has length 2N):
    for the i-th utterance, at position 2i a "user" record with the
    utterance and the intent [turn_intent] gave it in the session as it was
    before that turn, and at position 2i+1 an "assistant" record with the
    reply and that same intent. *)
Theorem history_invariant `{PyText} (self : MockChatbot)
    (messages : list str) :
  ∃ final new,
    process_all self messages = Ok final
    ∧ conversation_history final = conversation_history self ++ new
    ∧ length new = 2 * length messages
    ∧ length (conversation_history final)
      = length (conversation_history self) + 2 * length messages
    ∧ ∀ i message, messages !! i = Some message →
        ∃ before after label reply,
          process_all self (take i messages) = Ok before
          ∧ turn_intent before message = Ok label
          ∧ generate_response before message = Ok (after, reply)
          ∧ new !! (2 * i) = Some (Turn user message label)
          ∧ new !! (2 * i + 1) = Some (Turn assistant reply label).
Proof.
  revert self.
  induction messages as [|message messages IH]; intros self.
  - exists self, []. rewrite app_nil_r. simpl.
    repeat split; done.
  - destruct (generate_response_ok self message)
      as (label & ctx' & response & Hlabel & _ & Hgen).
    set (s1 := {| conversation_history := _; context := ctx' |}) in Hgen.
    destruct (IH s1) as (final & new & Hrun & Hhist & Hlen & _ & Hrec).
    exists final,
      (Turn user message label :: Turn assistant response label :: new).
    split.
    { cbn [process_all]. by rewrite Hgen, bind_Ok. }
    split.
    { rewrite Hhist. unfold s1. cbn [conversation_history].
      by rewrite <- app_assoc. }
    split; [simpl; lia|].
    split.
    { rewrite Hhist. unfold s1. cbn [conversation_history].
      rewrite !length_app. simpl. lia. }
    intros [|i] m Hm.
    + injection Hm as <-.
      exists self, s1, label, response. by repeat split.
    + destruct (Hrec i m Hm)
        as (before & after & l & r & Hbefore & Hl & Hr & Hu & Ha).
      exists before, after, l, r.
      split.
      { cbn [take process_all]. by rewrite Hgen, bind_Ok. }
      split; [done|]. split; [done|].
      replace (2 * S i) with (S (S (2 * i))) by lia.
      replace (S (S (2 * i)) + 1) with (S (S (2 * i + 1))) by lia.
      by split.
Qed.

(** Three utterances on a new session: six records. *)
Lemma history_invariant_witness :
  ∃ final,
    @process_all latin1_text init
      [lit "Hello"; lit "My name is Mira"; lit "What's my name?"] = Ok final
    ∧ length (conversation_history final) = 6
    ∧ role <$> conversation_history final
      = [user; assistant; user; assistant; user; assistant]
    ∧ conversation_history final !! 5
      = Some (Turn assistant (lit "Your name is Mira!") name_query).
Proof.
  destruct (@history_invariant latin1_text init
              [lit "Hello"; lit "My name is Mira"; lit "What's my name?"])
    as (final & new & Hrun & Hhist & _ & Hlen & Hrec).
  exists final. split; [exact Hrun|]. split; [exact Hlen|].
  destruct (Hrec 2 (lit "What's my name?") eq_refl)
    as (before & after & label & reply & Hbefore & Hl & Hr & _ & Ha).
  vm_compute in Hbefore. injection Hbefore as <-.
  vm_compute in Hr. injection Hr as <- <-.
  vm_compute in Hl. injection Hl as <-.
  vm_compute in Hrun. injection Hrun as <-.
  split; by vm_compute.
Defined.

(** ** C6: what a turn may write, and reset *)

(** One turn: the history is extended, the context keeps every key it had
    and differs at most at the three named keys. *)
Lemma generate_response_frame `{PyText} (self : MockChatbot) (message : str) :
  ∃ self' reply,
    generate_response self message = Ok (self', reply)
    ∧ conversation_history self `prefix_of` conversation_history self'
    ∧ (∀ k, k ≠ key_user_name → k ≠ key_booking_started →
            k ≠ key_booking_time → context self' !! k = context self !! k)
    ∧ (∀ k, is_Some (context self !! k) → is_Some (context self' !! k)).
Proof.
  destruct (generate_response_ok self message)
    as (label & ctx' & response & _ & Hdispatch & Hgen).
  destruct (dispatch_ok (context self) message label)
    as (ctx2 & response2 & Hdispatch2 & _ & Hframe & Hkeep).
  rewrite Hdispatch in Hdispatch2. injection Hdispatch2 as <- <-.
  eexists _, _. split; [exact Hgen|]. cbn [conversation_history context].
  split; [by apply prefix_app_r|]. done.
Qed.

(** C6. Processing any sequence of utterances returns; the context then
    agrees with the one before at every key other than [user_name],
    [booking_started] and [booking_time], every key that was present is
    still present, and the old history is a prefix of the new one.  After
    any sequence of calls that ends with [reset()], the context is empty and
    the history has length 0. *)
Theorem writes_only_named_keys `{PyText} (self : MockChatbot)
    (messages : list str) (ops : list op) :
  (∃ final,
     run self (OpProcess <$> messages) = Ok final
     ∧ (∀ k, k ≠ key_user_name → k ≠ key_booking_started →
             k ≠ key_booking_time → context final !! k = context self !! k)
     ∧ (∀ k, is_Some (context self !! k) → is_Some (context final !! k))
     ∧ conversation_history self `prefix_of` conversation_history final)
  ∧ (∃ final,
       run self (ops ++ [OpReset]) = Ok final
       ∧ context final = ∅
       ∧ length (conversation_history final) = 0).
Proof.
  split.
  - clear ops. revert self.
    induction messages as [|message messages IH]; intros self.
    + exists self. by repeat split.
    + destruct (generate_response_frame self message)
        as (s1 & reply & Hgen & Hprefix & Hframe & Hkeep).
      destruct (IH s1) as (final & Hrun & Hframe' & Hkeep' & Hprefix').
      exists final. cbn [fmap list_fmap run].
      rewrite Hgen, bind_Ok. split; [exact Hrun|].
      split; [|split].
      * intros k Hk1 Hk2 Hk3.
        rewrite Hframe' by done. by apply Hframe.
      * intros k Hk. by apply Hkeep', Hkeep.
      * by etrans.
  - destruct (run_total self ops) as (mid & Hmid).
    exists init. rewrite (run_app _ _ _ _ Hmid). by repeat split.
Qed.

(** A key written by a caller survives two turns that write all three named
    keys; a reset after them leaves nothing. *)
Lemma writes_only_named_keys_witness :
  let self := {| conversation_history := [];
                 context := {[ lit "theme" := VStr (lit "dark") ]} |} in
  let messages := [lit "My name is Mira"; lit "I want to book a meeting";
                   lit "Tomorrow at 2pm"] in
  (∃ final,
     @run latin1_text self (OpProcess <$> messages) = Ok final
     ∧ context final !! lit "theme" = Some (VStr (lit "dark"))
     ∧ is_Some (context final !! key_user_name))
  ∧ (∃ final,
       @run latin1_text self ((OpProcess <$> messages) ++ [OpReset]) = Ok final
       ∧ context final = ∅).
Proof.
  intros self messages.
  destruct (@writes_only_named_keys latin1_text self messages
              (OpProcess <$> messages))
    as [(final & Hrun & Hframe & _ & _) (final2 & Hrun2 & Hempty & _)].
  split.
  - exists final. split; [exact Hrun|]. split.
    + rewrite Hframe; by vm_compute.
    + vm_compute in Hrun. injection Hrun as <-. vm_compute. by eexists.
  - exists final2. by split.
Defined.

(** ** The metric helpers *)

Lemma count_if_le (cond : str → str → bool) (pairs : list (str * str)) :
  count_if cond pairs ≤ length pairs.
Proof.
  induction pairs as [|[pred true_] pairs IH]; simpl; [done|].
  destruct (cond pred true_); lia.
Qed.

Lemma count_upto_shift (f : nat → bool) (n : nat) :
  count_upto f (S n) = (if f 0 then 1 else 0) + count_upto (λ i, f (S i)) n.
Proof.
  induction n as [|n IH]; [simpl; lia|].
  change (count_upto f (S (S n)))
    with (count_upto f (S n) + (if f (S n) then 1 else 0)).
  rewrite IH. simpl. lia.
Qed.

Lemma count_if_agreeing (predictions ground_truth : list str) :
  length predictions = length ground_truth →
  count_if str_eqb (zip predictions ground_truth)
  = agreeing_positions predictions ground_truth.
Proof.
  unfold agreeing_positions. revert ground_truth.
  induction predictions as [|x p IH]; intros [|y g] Hlen; try done.
  injection Hlen as Hlen.
  cbn [zip zip_with count_if length]. rewrite count_upto_shift.
  cbn [lookup list_lookup]. rewrite (IH g Hlen). f_equal.
  destruct (str_eqb x y) eqn:Hxy.
  - apply str_eqb_eq in Hxy as ->. by rewrite bool_decide_eq_true_2.
  - apply str_eqb_neq in Hxy. rewrite bool_decide_eq_false_2; [done|].
    by intros [= ->].
Qed.

Lemma calculate_accuracy_length_mismatch (predictions ground_truth : list str) :
  length predictions ≠ length ground_truth →
  calculate_accuracy predictions ground_truth = Raise ValueError.
Proof.
  intros Hlen. unfold calculate_accuracy.
  by destruct (Nat.eqb_spec (length predictions) (length ground_truth)).
Qed.

(** ** C9: accuracy *)

(** C9. [calculate_accuracy] raises exactly when the two sequences have
    different lengths, and what it raises is [ValueError]; on two empty
    sequences it returns 0; on two non-empty sequences of equal length it
    returns the number of positions where the two agree divided by the
    length, which lies between 0 and 1. *)
Theorem calculate_accuracy_spec (predictions ground_truth : list str) :
  (calculate_accuracy predictions ground_truth = Raise ValueError
   ↔ length predictions ≠ length ground_truth)
  ∧ (∀ e, calculate_accuracy predictions ground_truth = Raise e →
          e = ValueError)
  ∧ calculate_accuracy [] [] = Ok 0%Q
  ∧ (length predictions = length ground_truth → predictions ≠ [] →
     ∃ q, calculate_accuracy predictions ground_truth = Ok q
          ∧ q = (Z.of_nat (agreeing_positions predictions ground_truth)
                 # Pos.of_nat (length predictions))
          ∧ Qle 0 q ∧ Qle q 1).
Proof.
  unfold calculate_accuracy.
  destruct (Nat.eqb_spec (length predictions) (length ground_truth))
    as [Hlen|Hlen]; cbn [negb].
  - destruct predictions as [|x p].
    + split; [split; [done | intros Hne; by destruct Hne]|].
      split; [done|]. split; [done|]. done.
    + cbn [length Nat.eqb truediv].
      split; [split; [done | intros Hne; by destruct Hne]|].
      split; [done|]. split; [done|].
      intros _ _. eexists. split; [reflexivity|].
      rewrite count_if_agreeing by done.
      split; [done|].
      pose proof (count_if_le str_eqb (zip (x :: p) ground_truth)) as Hle.
      rewrite count_if_agreeing, length_zip in Hle by done.
      cbn [length] in Hle.
      unfold Qle. cbn [Qnum Qden]. split; lia.
  - split; [done|]. split; [by intros e [= <-]|].
    split; [done|]. done.
Qed.

Lemma calculate_accuracy_spec_witness :
  calculate_accuracy [lit "greeting"] [] = Raise ValueError
  ∧ calculate_accuracy [lit "greeting"; lit "help"] [lit "greeting"; lit "thanks"]
    = Ok (1 # 2).
Proof.
  split.
  - apply (calculate_accuracy_spec [lit "greeting"] []). by vm_compute.
  - destruct (calculate_accuracy_spec [lit "greeting"; lit "help"]
                [lit "greeting"; lit "thanks"])
      as (_ & _ & _ & Hfrac).
    destruct Hfrac as (q & -> & -> & _); [done | done |]. by vm_compute.
Defined.

(** ** C10: sequences of different lengths *)

(** [zip] stops at the end of the shorter sequence. *)
Lemma zip_take_min (predictions ground_truth : list str) :
  let n := length predictions `min` length ground_truth in
  zip (take n predictions) (take n ground_truth) = zip predictions ground_truth.
Proof.
  intros n. unfold zip. apply zip_with_take_both'; lia.
Qed.

Lemma confusion_step_ok (matrix : gmap str (gmap str nat)) (item : str * str) :
  ∃ matrix', confusion_step matrix item = Ok matrix'.
Proof.
  destruct item as [pred true_]. unfold confusion_step, dict_getitem.
  cbv beta iota zeta.
  destruct (matrix !! true_) as [row|] eqn:Hrow; cbv beta iota.
  - rewrite Hrow, bind_Ok.
    destruct (row !! pred) as [n|] eqn:Hn; cbv beta iota.
    + rewrite Hn, bind_Ok. by eexists.
    + rewrite lookup_insert_eq, bind_Ok. by eexists.
  - rewrite lookup_insert_eq, bind_Ok, lookup_empty. cbv beta iota.
    rewrite lookup_insert_eq, bind_Ok. by eexists.
Qed.

Lemma confusion_loop_ok (matrix : gmap str (gmap str nat))
    (pairs : list (str * str)) :
  ∃ matrix', confusion_loop matrix pairs = Ok matrix'.
Proof.
  revert matrix. induction pairs as [|item pairs IH]; intros matrix.
  - by eexists.
  - destruct (confusion_step_ok matrix item) as [matrix1 Hstep].
    cbn [confusion_loop]. rewrite Hstep, bind_Ok. apply IH.
Qed.

Lemma truediv_ok (a b : nat) : (0 <? b) = true → ∃ q, truediv a b = Ok q.
Proof.
  destruct b as [|b]; [done|]. intros _. by eexists.
Qed.

Lemma calculate_precision_recall_ok (predictions ground_truth : list str)
    (label : str) :
  ∃ pr, calculate_precision_recall predictions ground_truth label = Ok pr.
Proof.
  unfold calculate_precision_recall.
  set (tp := count_if _ _). set (fp := count_if _ _).
  set (fn := count_if _ _).
  assert (∃ precision,
            (if 0 <? tp + fp then truediv tp (tp + fp) else Ok 0%Q)
            = Ok precision) as [precision ->].
  { destruct (0 <? tp + fp) eqn:Hpos; [by apply truediv_ok | by eexists]. }
  assert (∃ recall,
            (if 0 <? tp + fn then truediv tp (tp + fn) else Ok 0%Q)
            = Ok recall) as [recall ->].
  { destruct (0 <? tp + fn) eqn:Hpos; [by apply truediv_ok | by eexists]. }
  by eexists.
Qed.

(** C10. For sequences of any two lengths [get_confusion_matrix] and
    [calculate_precision_recall] return without raising, and return what they
    return on the first [min(len(predictions), len(ground_truth))] elements
    of each sequence; [calculate_accuracy] raises when the lengths differ. *)
Theorem metrics_ignore_surplus (predictions ground_truth : list str)
    (label : str) :
  let n := length predictions `min` length ground_truth in
  (∃ matrix,
     get_confusion_matrix predictions ground_truth = Ok matrix
     ∧ get_confusion_matrix (take n predictions) (take n ground_truth)
       = Ok matrix)
  ∧ (∃ pr,
       calculate_precision_recall predictions ground_truth label = Ok pr
       ∧ calculate_precision_recall (take n predictions)
           (take n ground_truth) label = Ok pr)
  ∧ (length predictions ≠ length ground_truth →
     calculate_accuracy predictions ground_truth = Raise ValueError).
Proof.
  intros n. subst n. split; [|split].
  - destruct (confusion_loop_ok ∅ (zip predictions ground_truth))
      as [matrix Hmatrix].
    exists matrix. unfold get_confusion_matrix.
    by rewrite zip_take_min.
  - destruct (calculate_precision_recall_ok predictions ground_truth label)
      as [pr Hpr].
    exists pr. split; [done|].
    unfold calculate_precision_recall in *. by rewrite zip_take_min.
  - apply calculate_accuracy_length_mismatch.
Qed.

(** Three predictions against two labels: the third prediction is not
    counted by the matrix or by precision and recall, and accuracy
    raises. *)
Lemma metrics_ignore_surplus_witness :
  get_confusion_matrix [lit "help"; lit "thanks"; lit "help"]
    [lit "help"; lit "help"]
  = get_confusion_matrix [lit "help"; lit "thanks"] [lit "help"; lit "help"]
  ∧ calculate_precision_recall [lit "help"; lit "thanks"; lit "help"]
      [lit "help"; lit "help"] (lit "help") = Ok (1%Q, (1 # 2))
  ∧ calculate_accuracy [lit "help"; lit "thanks"; lit "help"]
      [lit "help"; lit "help"] = Raise ValueError.
Proof.
  pose proof (metrics_ignore_surplus [lit "help"; lit "thanks"; lit "help"]
                [lit "help"; lit "help"] (lit "help")) as Hthm.
  cbv zeta in Hthm.
  destruct Hthm as ((matrix & -> & Htake) & (pr & -> & Hpr) & Hacc).
  split; [by rewrite <- Htake|].
  split; [rewrite <- Hpr; by vm_compute|].
  apply Hacc. by vm_compute.
Defined.

(** ** C4: the name extractor *)

(** *** What [re_search] finds *)

Lemma startswith_app (p s : str) :
  startswith p s = true ↔ ∃ rest, s = p ++ rest.
Proof.
  revert s. induction p as [|x p IH]; intros s.
  - split; [by exists s | done].
  - destruct s as [|y s]; simpl.
    + split; [done | by intros [rest ?]].
    + rewrite andb_true_iff, N.eqb_eq, IH. split.
      * intros [-> [rest ->]]. by exists rest.
      * intros [rest [= -> ->]]. split; [done | by exists rest].
Qed.

Lemma take_word_split `{PyText} (s : str) :
  ∃ rest,
    s = take_word s ++ rest
    ∧ Forall (λ c, is_word c = true) (take_word s)
    ∧ (∀ c rest', rest = c :: rest' → is_word c = false).
Proof.
  induction s as [|c s (rest & Hs & Hword & Hstop)].
  - exists []. by repeat split.
  - simpl. destruct (is_word c) eqn:Hc.
    + exists rest. split; [simpl; by f_equal|].
      split; [by constructor | done].
    + exists (c :: s). split; [done|]. split; [done|].
      by intros c' rest' [= <- <-].
Qed.

(** A result of [re_search] is a non-empty run of word characters that
    follows the literal in the text and is not followed by a word
    character. *)
Lemma re_search_sound `{PyText} (p s w : str) :
  re_search p s = Some w →
  ∃ before rest,
    s = before ++ p ++ w ++ rest
    ∧ w ≠ []
    ∧ Forall (λ c, is_word c = true) w
    ∧ (∀ c rest', rest = c :: rest' → is_word c = false).
Proof.
  induction s as [|c s IH].
  - cbn [re_search]. unfold match_here.
    destruct (startswith p []) eqn:Hp; [|done].
    apply startswith_app in Hp as [tail Hp].
    symmetry in Hp. apply app_eq_nil in Hp as [-> ->]. done.
  - cbn [re_search]. destruct (match_here p (c :: s)) as [w'|] eqn:Hhere.
    + intros [= ->]. unfold match_here in Hhere.
      destruct (startswith p (c :: s)) eqn:Hp; [|done].
      apply startswith_app in Hp as [tail Hp]. rewrite Hp in Hhere.
      rewrite drop_app_length in Hhere.
      destruct (take_word_split tail) as (rest & Htail & Hword & Hstop).
      destruct (take_word tail) as [|x ws] eqn:Hw; [done|].
      injection Hhere as <-.
      exists [], rest. rewrite Hp. simpl. rewrite Htail at 1.
      by repeat split.
    + intros Hs. destruct (IH Hs) as (before & rest & -> & Hrest).
      by exists (c :: before), rest.
Qed.

(** Where the literal is followed by a word character, [re_search] finds a
    match. *)
Lemma re_search_complete `{PyText} (p before rest : str) (c : char) :
  is_word c = true → is_Some (re_search p (before ++ p ++ c :: rest)).
Proof.
  intros Hc. induction before as [|x before IH].
  - assert (match_here p (p ++ c :: rest) = Some (c :: take_word rest))
      as Hhere.
    { unfold match_here.
      assert (startswith p (p ++ c :: rest) = true) as ->
        by (apply startswith_app; by eexists).
      rewrite drop_app_length. simpl. by rewrite Hc. }
    simpl app at 1. destruct p as [|y p].
    + simpl in *. destruct rest; simpl; by rewrite Hhere.
    + simpl in *. by rewrite Hhere.
  - simpl. destruct (match_here p (x :: before ++ p ++ c :: rest)); [done|].
    exact IH.
Qed.

(** What [re_search] returns is made of code points of the text. *)
Lemma take_word_Forall `{PyText} (P : char → Prop) (s : str) :
  Forall P s → Forall P (take_word s).
Proof.
  induction 1 as [|c s Hc Hs IH]; simpl; [done|].
  destruct (is_word c); by constructor.
Qed.

Lemma re_search_Forall `{PyText} (P : char → Prop) (p s w : str) :
  Forall P s → re_search p s = Some w → Forall P w.
Proof.
  induction 1 as [|c s Hc Hs IH].
  - unfold re_search, match_here. destruct p; simpl; done.
  - cbn [re_search]. destruct (match_here p (c :: s)) as [w'|] eqn:Hhere.
    + intros [= ->]. unfold match_here in Hhere.
      destruct (startswith p (c :: s)); [|done].
      set (found := take_word _) in Hhere.
      assert (Forall P found) as Hall.
      { apply take_word_Forall, Forall_drop. by constructor. }
      clearbody found. destruct found as [|x ws]; [done|].
      by injection Hhere as <-.
    + exact IH.
Qed.

(** C4, as stated, fails on "my name is McDonald": the word standing in
    the text is "McDonald", and capitalizing its first letter leaves it as it
    is; [extract_name] returns "Mcdonald". *)
Lemma extract_name_changes_rest :
  @extract_name_contract latin1_text (lit "my name is McDonald")
  = Some (lit "McDonald")
  ∧ @extract_name latin1_text (lit "my name is McDonald")
    = Some (lit "Mcdonald")
  ∧ @extract_name latin1_text (lit "my name is McDonald")
    ≠ @extract_name_contract latin1_text (lit "my name is McDonald").
Proof.
  split; [by vm_compute|]. split; [by vm_compute|].
  intros Heq. vm_compute in Heq. discriminate Heq.
Qed.

(** *** What [extract_name] does *)

Lemma is_ascii_Forall (s : str) :
  is_ascii s = true ↔ Forall (λ c, (c < 128)%N) s.
Proof.
  induction s as [|c s IH]; [done|].
  rewrite is_ascii_cons, Forall_cons, IH. done.
Qed.

(** A word cut out of lower-cased ASCII text is capitalized by upper-casing
    its first letter. *)
Lemma capitalize_lower_word `{PyTextLaws} (w : str) :
  Forall (λ c, (c < 128)%N ∧ ascii_lower c = c) w →
  capitalize w = ascii_capitalize_first w ∧ map ascii_lower w = w.
Proof.
  intros Hw.
  assert (map ascii_lower w = w) as Hfix.
  { induction Hw as [|c w [_ Hc] _ IH]; [done|]. simpl. by rewrite Hc, IH. }
  split; [|done].
  rewrite capitalize_ascii.
  - destruct w as [|c w]; [done|]. simpl in *. by injection Hfix as _ ->.
  - apply is_ascii_Forall. eapply Forall_impl; [exact Hw|]. by intros c [? _].
Qed.

Lemma lower_text_Forall (message : str) :
  is_ascii message = true →
  Forall (λ c, (c < 128)%N ∧ ascii_lower c = c) (map ascii_lower message).
Proof.
  intros Ha%is_ascii_Forall. apply Forall_map.
  eapply Forall_impl; [exact Ha|]. intros c Hc. simpl.
  split; [by apply ascii_lower_lt | apply ascii_lower_idemp].
Qed.

Lemma first_match_first `{PyText} (before after : list str) (p s w : str) :
  Forall (λ q, re_search q s = None) before →
  re_search p s = Some w →
  first_match (before ++ p :: after) s = Some (capitalize w).
Proof.
  intros Hbefore Hp. induction Hbefore as [|q before Hq _ IH]; simpl.
  - by rewrite Hp.
  - by rewrite Hq.
Qed.

Lemma first_match_none `{PyText} (ps : list str) (s : str) :
  Forall (λ q, re_search q s = None) ps → first_match ps s = None.
Proof.
  induction 1 as [|q ps Hq _ IH]; simpl; [done|]. by rewrite Hq.
Qed.

(** On ASCII text every implementation of the builtins finds what
    [latin1_text] finds. *)
Lemma take_word_ascii `{PyTextLaws} (s : str) :
  is_ascii s = true → take_word s = @take_word latin1_text s.
Proof.
  induction s as [|c s IH]; [done|].
  intros [Hc Hs]%is_ascii_cons. simpl. unfold is_word.
  rewrite (isalnum_ascii c Hc), (@isalnum_ascii latin1_text latin1_laws c Hc).
  by rewrite IH.
Qed.

Lemma is_ascii_drop (n : nat) (s : str) :
  is_ascii s = true → is_ascii (drop n s) = true.
Proof. rewrite !is_ascii_Forall. apply Forall_drop. Qed.

Lemma re_search_ascii `{PyTextLaws} (p s : str) :
  is_ascii s = true → re_search p s = @re_search latin1_text p s.
Proof.
  induction s as [|c s IH]; intros Ha.
  - unfold re_search, match_here.
    by rewrite (take_word_ascii _ (is_ascii_drop (length p) [] Ha)).
  - cbn [re_search]. unfold match_here.
    rewrite (take_word_ascii _ (is_ascii_drop (length p) (c :: s) Ha)).
    apply is_ascii_cons in Ha as [_ Ha]. by rewrite (IH Ha).
Qed.

(** C4, as amended. [extract_name] searches the lower-cased text, and
    what it returns is the captured word passed through [capitalize].  For
    every text: if [p] is the first of the four patterns, in order, that
    matches the lower-cased text, with captured word [w], the result is
    [capitalize w] (first letter capitalized, rest lower-cased); if no
    pattern matches, the result is nothing.  For every ASCII text the
    lower-cased text is the text with A-Z replaced by a-z, and the result is
    [w] with its first letter in upper case and the rest as it stands in the
    lower-cased text (so in lower case, whatever its case in the input).
    "My name is Mira" gives "Mira"; "my name is McDonald" gives
    "Mcdonald". *)
Theorem extract_name_lower_case `{PyText} (message : str) :
  let t := lower message in
  (∀ before p after w,
     patterns = before ++ p :: after →
     Forall (λ q, re_search q t = None) before →
     re_search p t = Some w →
     extract_name message = Some (capitalize w) ∧ w ≠ [])
  ∧ (Forall (λ q, re_search q t = None) patterns →
     extract_name message = None)
  ∧ (PyTextLaws →
     (is_ascii message = true →
      t = map ascii_lower message
      ∧ ∀ before p after w,
          patterns = before ++ p :: after →
          Forall (λ q, re_search q t = None) before →
          re_search p t = Some w →
          extract_name message = Some (ascii_capitalize_first w)
          ∧ w ≠ [] ∧ map ascii_lower w = w)
     ∧ extract_name (lit "My name is Mira") = Some (lit "Mira")
     ∧ extract_name (lit "my name is McDonald") = Some (lit "Mcdonald")).
Proof.
  assert (∀ m before p after w,
            patterns = before ++ p :: after →
            Forall (λ q, re_search q (lower m) = None) before →
            re_search p (lower m) = Some w →
            extract_name m = Some (capitalize w) ∧ w ≠ []) as Hfirst.
  { intros m before p after w Hpatterns Hbefore Hp. unfold extract_name.
    rewrite Hpatterns, (first_match_first before after p _ w Hbefore Hp).
    split; [done|].
    by destruct (re_search_sound p _ w Hp) as (_ & _ & _ & Hne & _). }
  intros t. split; [apply Hfirst|].
  split; [apply first_match_none|].
  intros Hlaws.
  assert (∀ m, is_ascii m = true →
               lower m = map ascii_lower m
               ∧ ∀ before p after w,
                   patterns = before ++ p :: after →
                   Forall (λ q, re_search q (lower m) = None) before →
                   re_search p (lower m) = Some w →
                   extract_name m = Some (ascii_capitalize_first w)
                   ∧ w ≠ [] ∧ map ascii_lower w = w) as Hascii.
  { intros m Ha. split; [by apply lower_ascii|].
    intros before p after w Hpatterns Hbefore Hp.
    destruct (Hfirst m before p after w Hpatterns Hbefore Hp) as [-> Hne].
    rewrite (lower_ascii m Ha) in Hp.
    pose proof (re_search_Forall _ p _ w (lower_text_Forall m Ha) Hp) as Hw.
    destruct (capitalize_lower_word w Hw) as [-> Hfix]. done. }
  split; [apply Hascii|].
  split.
  - destruct (Hascii (lit "My name is Mira")) as [Hlower Hname];
      [by vm_compute|].
    destruct (Hname [] (lit "my name is ") [lit "i am "; lit "i'm ";
                                             lit "call me "] (lit "mira"))
      as [-> _]; [done | done | | by vm_compute].
    rewrite Hlower, re_search_ascii by (by vm_compute). by vm_compute.
  - destruct (Hascii (lit "my name is McDonald")) as [Hlower Hname];
      [by vm_compute|].
    destruct (Hname [] (lit "my name is ") [lit "i am "; lit "i'm ";
                                             lit "call me "]
                (lit "mcdonald"))
      as [-> _]; [done | done | | by vm_compute].
    rewrite Hlower, re_search_ascii by (by vm_compute). by vm_compute.
Qed.

(** "I am" is tried before "call me", wherever they stand in the text; a
    text with none of the four phrases gives nothing. *)
Lemma extract_name_lower_case_witness :
  @extract_name latin1_text (lit "Call me Al, I am BOB") = Some (lit "Bob")
  ∧ @extract_name latin1_text (lit "hello") = None.
Proof.
  split.
  - pose proof (@extract_name_lower_case latin1_text
                  (lit "Call me Al, I am BOB")) as Hthm.
    cbv zeta in Hthm. destruct Hthm as (_ & _ & Hlaws).
    destruct (Hlaws latin1_laws) as [Hascii _].
    destruct Hascii as [_ Hname]; [by vm_compute|].
    destruct (Hname [lit "my name is "] (lit "i am ")
                [lit "i'm "; lit "call me "] (lit "bob"))
      as [-> _]; [done | | by vm_compute | by vm_compute].
    constructor; [by vm_compute | constructor].
  - pose proof (@extract_name_lower_case latin1_text (lit "hello")) as Hthm.
    cbv zeta in Hthm. destruct Hthm as (_ & Hnone & _).
    apply Hnone. repeat constructor.
Defined.

(** * Further properties of the code *)

(** ** The resolver *)

Lemma resolve_not_booking_time (t : str) : resolve t ≠ booking_time.
Proof.
  unfold resolve.
  repeat match goal with
    | |- (if ?b then _ else _) ≠ _ =>
        destruct b; [intros Hx; vm_compute in Hx; discriminate Hx|]
    end.
  intros Hx; vm_compute in Hx; discriminate Hx.
Qed.

(** [get_intent] never answers [booking_time]; a turn gets that intent
    exactly when the session is in booking mode and the text looks like a
    time. *)
Theorem booking_time_only_by_override `{PyText} (self : MockChatbot)
    (message : str) :
  get_intent message ≠ Ok booking_time
  ∧ (turn_intent self message = Ok booking_time
     ↔ in_booking_mode (context self) && time_like message = true).
Proof.
  assert (get_intent message ≠ Ok booking_time) as Hnever.
  { rewrite get_intent_resolve. intros [= Hx].
    by apply resolve_not_booking_time in Hx. }
  split; [exact Hnever|].
  unfold turn_intent, in_booking_mode, time_like.
  rewrite <- andb_assoc.
  destruct (_ && _); [done|]. split; [by intros Hx | done].
Qed.

Lemma startswith_app_l (p q s : str) :
  startswith (p ++ q) s = true → startswith p s = true.
Proof.
  rewrite !startswith_app. intros [rest ->].
  exists (q ++ rest). by rewrite <- app_assoc.
Qed.

Lemma contains_app_l (p q s : str) :
  contains (p ++ q) s = true → contains p s = true.
Proof.
  induction s as [|c s IH]; simpl.
  - rewrite !orb_false_r. apply startswith_app_l.
  - rewrite !orb_true_iff. intros [Hp | Hs].
    + left. by eapply startswith_app_l.
    + right. by apply IH.
Qed.

Lemma contains_thanks_thank (t : str) :
  contains (lit "thanks") t = true → contains (lit "thank") t = true.
Proof. apply (contains_app_l (lit "thank") (lit "s")). Qed.

(** The look at what stands before "thanks" never decides anything in
    [get_intent]: the thanks test holds exactly when the text contains
    "thank" or "appreciate".  And once it has failed, the "thank" guard of
    the help test is idle. *)
Theorem thanks_test_is_two_keywords (t : str) :
  thanks_rule t
  = Ok (contains (lit "thank") t || contains (lit "appreciate") t)
  ∧ (contains (lit "thank") t || contains (lit "appreciate") t = false →
     help_rule t
     = contains (lit "help") t || contains (lit "assist") t
       || contains (lit "support") t).
Proof.
  split.
  - rewrite thanks_rule_ok. f_equal. unfold rule_thanks.
    destruct (contains (lit "thank") t) eqn:Hthank; [done|].
    destruct (contains (lit "thanks") t) eqn:Hthanks; [|done].
    apply contains_thanks_thank in Hthanks. congruence.
  - intros [Hthank _]%orb_false_iff. unfold help_rule.
    by rewrite Hthank, andb_true_r.
Qed.

Lemma thanks_test_is_two_keywords_witness :
  thanks_rule (lit "help me, thanks") = Ok true
  ∧ help_rule (lit "i need support") = true.
Proof.
  destruct (thanks_test_is_two_keywords (lit "help me, thanks")) as [-> _].
  destruct (thanks_test_is_two_keywords (lit "i need support")) as [_ ->];
    by vm_compute.
Defined.

Lemma rule_goodbye_keywords (t : str) :
  rule_goodbye t = any_in [lit "bye"; lit "farewell"; lit "see you"] t.
Proof.
  unfold rule_goodbye.
  destruct (any_in _ t) eqn:Hany; [by rewrite orb_true_r|].
  rewrite orb_false_r.
  unfold any_in in Hany. cbn [existsb] in Hany.
  apply orb_false_iff in Hany as [Hbye _].
  rewrite Hbye, orb_false_l.
  destruct (str_eqb t (lit "goodbye")) eqn:Heq; [|by rewrite andb_false_r].
  apply str_eqb_eq in Heq as ->. by vm_compute in Hbye.
Qed.

(** The test on texts that start with "good" adds nothing to the goodbye
    rule: [get_intent] answers [goodbye] exactly when the four earlier tests
    fail and the text contains "bye", "farewell" or "see you". *)
Theorem goodbye_is_three_keywords `{PyText} (message : str) :
  let t := strip (lower message) in
  get_intent message = Ok goodbye
  ↔ name_introduction_rule t = false ∧ rule_name_query t = false
    ∧ rule_thanks t = false ∧ help_rule t = false
    ∧ any_in [lit "bye"; lit "farewell"; lit "see you"] t = true.
Proof.
  intros t. rewrite get_intent_resolve. fold t. unfold resolve.
  rewrite <- rule_goodbye_keywords.
  repeat match goal with
    | |- Ok (if ?b then _ else _) = _ ↔ _ =>
        destruct b;
        [split;
         [intros Hx; vm_compute in Hx; discriminate Hx
         | intros Hx; by destruct_and!]
        |]
    end.
  destruct (rule_goodbye t); [by repeat split|].
  split; [|by intros (_ & _ & _ & _ & Hx)].
  repeat match goal with
    | |- Ok (if ?b then _ else _) = _ → _ =>
        destruct b; [intros Hx; vm_compute in Hx; discriminate Hx|]
    end.
  intros Hx; vm_compute in Hx; discriminate Hx.
Qed.

Lemma booking_time_only_by_override_witness :
  @turn_intent latin1_text
    {| conversation_history := [];
       context := {[ key_booking_started := VBool true ]} |}
    (lit "Cancel it on Friday") = Ok booking_time.
Proof.
  apply (@booking_time_only_by_override latin1_text). by vm_compute.
Defined.

Lemma goodbye_is_three_keywords_witness :
  @get_intent latin1_text (lit "Good night and farewell") = Ok goodbye.
Proof.
  apply (@goodbye_is_three_keywords latin1_text). by vm_compute.
Defined.

(** *** White space around the text *)

Lemma lstrip_spaces (ws s : str) :
  forallb isspace ws = true → lstrip (ws ++ s) = lstrip s.
Proof.
  induction ws as [|c ws IH]; [done|]. simpl.
  intros [Hc Hws]%andb_true_iff. rewrite Hc. by apply IH.
Qed.

Lemma lstrip_app (s x : str) :
  lstrip (s ++ x) = match lstrip s with
                    | [] => lstrip x
                    | _ => lstrip s ++ x
                    end.
Proof.
  induction s as [|c s IH]; simpl.
  - by destruct (lstrip x).
  - by destruct (isspace c).
Qed.

Lemma forallb_rev {A} (f : A → bool) (l : list A) :
  forallb f (rev l) = forallb f l.
Proof.
  induction l as [|x l IH]; [done|]. simpl.
  rewrite forallb_app, IH. simpl. rewrite andb_true_r. apply andb_comm.
Qed.

Lemma lstrip_all_spaces (ws : str) : forallb isspace ws = true → lstrip ws = [].
Proof.
  intros Hws. rewrite <- (app_nil_r ws). by rewrite lstrip_spaces.
Qed.

(** [strip] drops any white space put around a text. *)
Lemma strip_spaces (ws1 s ws2 : str) :
  forallb isspace ws1 = true → forallb isspace ws2 = true →
  strip (ws1 ++ s ++ ws2) = strip s.
Proof.
  intros H1 H2. unfold strip. rewrite (lstrip_spaces ws1 _ H1), lstrip_app.
  destruct (lstrip s) as [|c s'] eqn:Hs.
  - by rewrite (lstrip_all_spaces ws2 H2).
  - rewrite rev_app_distr, lstrip_spaces; [done|]. by rewrite forallb_rev.
Qed.

Lemma ascii_lower_space (c : char) : isspace c = true → ascii_lower c = c.
Proof.
  unfold ascii_lower, isspace.
  destruct (N.leb_spec 65 c); [|done].
  destruct (N.leb_spec c 90); [|done]. cbn [andb].
  intros Hx. exfalso. revert Hx. cp_cases.
Qed.

Lemma map_ascii_lower_spaces (ws : str) :
  forallb isspace ws = true → map ascii_lower ws = ws.
Proof.
  induction ws as [|c ws IH]; [done|]. simpl.
  intros [Hc Hws]%andb_true_iff. by rewrite (ascii_lower_space c Hc), IH.
Qed.

Lemma is_ascii_app (a b : str) :
  is_ascii (a ++ b) = is_ascii a && is_ascii b.
Proof. apply forallb_app. Qed.

(** White space before and after an ASCII text does not change what
    [get_intent] answers. *)
Theorem get_intent_ignores_outer_space `{PyTextLaws}
    (ws1 message ws2 : str) :
  is_ascii ws1 = true → is_ascii message = true → is_ascii ws2 = true →
  forallb isspace ws1 = true → forallb isspace ws2 = true →
  get_intent (ws1 ++ message ++ ws2) = get_intent message.
Proof.
  intros Ha1 Ha Ha2 Hs1 Hs2.
  rewrite (get_intent_ascii message Ha).
  rewrite get_intent_ascii by (by rewrite !is_ascii_app, Ha1, Ha, Ha2).
  pose proof (map_ascii_lower_spaces ws1 Hs1) as Hws1.
  pose proof (map_ascii_lower_spaces ws2 Hs2) as Hws2.
  rewrite !map_app. unfold char in *. rewrite Hws1, Hws2.
  by rewrite strip_spaces.
Qed.

Lemma get_intent_ignores_outer_space_witness :
  @get_intent latin1_text (lit "  " ++ lit "See you soon" ++ [9%N; 10%N])
  = @get_intent latin1_text (lit "See you soon").
Proof.
  apply (@get_intent_ignores_outer_space latin1_text latin1_laws);
    by vm_compute.
Defined.

(** ** The name extractor *)

(** On ASCII text [extract_name] does not depend on the case of its
    input. *)
Theorem extract_name_ignores_case `{PyTextLaws} (message : str) :
  is_ascii message = true →
  extract_name (upper message) = extract_name message
  ∧ extract_name (lower message) = extract_name message.
Proof.
  intros Ha. destruct (ascii_case_round_trip message Ha) as [Hup Hlow].
  unfold extract_name. by rewrite Hup, Hlow.
Qed.

Lemma extract_name_ignores_case_witness :
  @extract_name latin1_text (lit "CALL ME ISHMAEL") = Some (lit "Ishmael")
  ∧ @extract_name latin1_text (lit "call me ishmael") = Some (lit "Ishmael").
Proof.
  destruct (@extract_name_ignores_case latin1_text latin1_laws
              (lit "call me ishmael")) as [Hup Hlow]; [by vm_compute|].
  split.
  - change (lit "CALL ME ISHMAEL")
      with (@upper latin1_text (lit "call me ishmael")).
    rewrite Hup. by vm_compute.
  - by vm_compute.
Defined.

Lemma first_match_Some `{PyText} (ps : list str) (s name : str) :
  first_match ps s = Some name →
  ∃ p w, p ∈ ps ∧ re_search p s = Some w ∧ name = capitalize w.
Proof.
  induction ps as [|p ps IH]; [done|]. simpl.
  destruct (re_search p s) as [w|] eqn:Hp.
  - intros [= <-]. exists p, w. split; [left | done].
  - intros (q & w & Hq & Hw)%IH. exists q, w. split; [by right | done].
Qed.

Lemma ascii_upper_idemp (c : char) : ascii_upper (ascii_upper c) = ascii_upper c.
Proof. unfold ascii_upper. cp_cases. Qed.

Lemma ascii_upper_word (c : char) :
  ascii_alnum c || (c =? 95)%N = true →
  ascii_alnum (ascii_upper c) || (ascii_upper c =? 95)%N = true.
Proof. unfold ascii_alnum, ascii_upper. cp_cases. Qed.

(** A name returned for an ASCII text is a non-empty run of ASCII
    letters, digits and underscores, whose first character is not a
    lower-case letter and whose other characters are not upper-case
    letters. *)
Theorem extract_name_shape `{PyTextLaws} (message name : str) :
  is_ascii message = true →
  extract_name message = Some name →
  ∃ c rest,
    name = c :: rest
    ∧ ascii_upper c = c
    ∧ map ascii_lower rest = rest
    ∧ Forall (λ x, ascii_alnum x || (x =? 95)%N = true) name.
Proof.
  intros Ha Hname. unfold extract_name in Hname.
  rewrite (lower_ascii message Ha) in Hname.
  apply first_match_Some in Hname as (p & w & _ & Hw & ->).
  pose proof (re_search_Forall _ p _ w (lower_text_Forall message Ha) Hw)
    as Hlow.
  destruct (re_search_sound p _ w Hw) as (_ & _ & _ & Hne & Hword & _).
  destruct (capitalize_lower_word w Hlow) as [-> Hfix].
  destruct w as [|c w]; [done|].
  exists (ascii_upper c), w. split; [done|].
  split; [apply ascii_upper_idemp|].
  split; [by injection Hfix|].
  apply Forall_cons in Hword as [Hc Hword].
  apply Forall_cons in Hlow as [[Hc128 _] Hlow].
  constructor.
  - apply ascii_upper_word. unfold is_word in Hc.
    by rewrite (isalnum_ascii c Hc128) in Hc.
  - apply Forall_forall. intros x Hx.
    rewrite Forall_forall in Hword, Hlow.
    specialize (Hword x Hx). destruct (Hlow x Hx) as [Hx128 _].
    unfold is_word in Hword. by rewrite (isalnum_ascii x Hx128) in Hword.
Qed.

Lemma extract_name_shape_witness :
  ∃ c rest,
    lit "Mcdonald" = c :: rest ∧ ascii_upper c = c
    ∧ map ascii_lower rest = rest.
Proof.
  destruct (@extract_name_shape latin1_text latin1_laws
              (lit "I'm McDonald!") (lit "Mcdonald"))
    as (c & rest & Hname & Hc & Hrest & _); [by vm_compute | by vm_compute |].
  by exists c, rest.
Defined.

(** ** The session, turn by turn *)

(** [dispatch] takes exactly one of the nine ways. *)
Lemma dispatch_cases `{PyText} (ctx ctx' : gmap str value)
    (message label reply : str) :
  dispatch ctx message label = Ok (ctx', reply) →
  dispatch_case ctx message label ctx' reply.
Proof.
  unfold dispatch.
  destruct (str_eqb label name_introduction) eqn:H1.
  { apply str_eqb_eq in H1 as ->.
    destruct (extract_name message) as [name|] eqn:Hname.
    - cbn [truthy]. destruct (str_eqb name []) eqn:Hempty; cbn [negb].
      + apply str_eqb_eq in Hempty as ->. intros [= <- <-].
        apply case_name_missing. by right.
      + apply str_eqb_neq in Hempty. intros [= <- <-].
        by apply case_name_stored.
    - intros [= <- <-]. apply case_name_missing. by left. }
  apply str_eqb_neq in H1.
  destruct (str_eqb label name_query) eqn:H2.
  { apply str_eqb_eq in H2 as ->.
    destruct (ctx !! key_user_name) as [name|] eqn:Hname.
    - unfold dict_getitem. rewrite Hname, bind_Ok. intros [= <- <-].
      by apply case_name_known.
    - intros [= <- <-]. by apply case_name_unknown. }
  apply str_eqb_neq in H2.
  destruct (str_eqb label booking_time) eqn:H3.
  { apply str_eqb_eq in H3 as ->. intros [= <- <-].
    apply case_booking_time. }
  apply str_eqb_neq in H3.
  destruct (str_eqb label booking) eqn:H4.
  { apply str_eqb_eq in H4 as ->. fold (in_booking_mode ctx).
    destruct (in_booking_mode ctx) eqn:Hmode; cbn [negb];
      intros [= <- <-].
    - by apply case_booking_again.
    - by apply case_booking_start. }
  apply str_eqb_neq in H4.
  destruct (str_eqb label weather) eqn:H5.
  { apply str_eqb_eq in H5 as ->. intros [= <- <-]. apply case_weather. }
  apply str_eqb_neq in H5.
  rewrite responses_unknown, bind_Ok. intros [= <- <-].
  by apply case_canned.
Qed.

(** What a call of [generate_response] that returned has done. *)
Lemma generate_response_inv `{PyText} (self self' : MockChatbot)
    (message reply : str) :
  generate_response self message = Ok (self', reply) →
  ∃ label,
    turn_intent self message = Ok label
    ∧ dispatch_case (context self) message label (context self') reply
    ∧ conversation_history self'
      = conversation_history self
        ++ [Turn user message label; Turn assistant reply label].
Proof.
  destruct (generate_response_ok self message)
    as (label & ctx' & response & Hlabel & Hdispatch & ->).
  intros [= <- <-]. exists label. split; [done|].
  split; [by apply dispatch_cases | done].
Qed.

Lemma key_user_name_ne_started : key_user_name ≠ key_booking_started.
Proof. by vm_compute. Qed.

Lemma key_user_name_ne_time : key_user_name ≠ key_booking_time.
Proof. by vm_compute. Qed.

(** Which intent writes which key: [user_name] changes only on a
    [name_introduction] turn, [booking_time] only on a [booking_time] turn,
    [booking_started] only on a [booking] or [booking_time] turn, and a turn
    of any other intent leaves the whole context as it was. *)
Theorem keys_written_by_intent `{PyText} (self self' : MockChatbot)
    (message reply : str) :
  generate_response self message = Ok (self', reply) →
  ∃ label,
    turn_intent self message = Ok label
    ∧ (label ≠ name_introduction →
       context self' !! key_user_name = context self !! key_user_name)
    ∧ (label ≠ booking_time →
       context self' !! key_booking_time = context self !! key_booking_time)
    ∧ (label ≠ booking → label ≠ booking_time →
       context self' !! key_booking_started
       = context self !! key_booking_started)
    ∧ (label ≠ name_introduction → label ≠ booking → label ≠ booking_time →
       context self' = context self).
Proof.
  intros (label & Hlabel & Hcase & _)%generate_response_inv.
  exists label. split; [done|].
  pose proof key_user_name_ne_started as Hus.
  pose proof key_user_name_ne_time as Hut.
  pose proof key_booking_started_ne_time as Hst.
  destruct Hcase; repeat split; intros; try done;
    by rewrite ?lookup_insert_ne by done.
Qed.

Lemma keys_written_by_intent_witness :
  ∃ self' reply,
    @generate_response latin1_text
      {| conversation_history := [];
         context := {[ key_user_name := VStr (lit "Mira") ]} |}
      (lit "What's the weather like?") = Ok (self', reply)
    ∧ context self' = {[ key_user_name := VStr (lit "Mira") ]}.
Proof.
  destruct (@generate_response_total latin1_text
              {| conversation_history := [];
                 context := {[ key_user_name := VStr (lit "Mira") ]} |}
              (lit "What's the weather like?")) as (self' & reply & Hgen).
  exists self', reply. split; [exact Hgen|].
  destruct (@keys_written_by_intent latin1_text _ _ _ _ Hgen)
    as (label & Hlabel & _ & _ & _ & Hsame).
  vm_compute in Hlabel. injection Hlabel as <-.
  apply Hsame; by vm_compute.
Defined.

(** Closes a case of [dispatch_case] whose label is not the one at hand. *)
Ltac other_label H := vm_compute in H; discriminate H.

(** Telling the name and asking for it: when a [name_introduction] turn
    yields a name, the name is stored under [user_name] and greeted; a
    [name_query] turn right after is answered with that name and changes
    nothing. *)
Theorem name_round_trip `{PyText} (self : MockChatbot)
    (message name : str) :
  turn_intent self message = Ok name_introduction →
  extract_name message = Some name → name ≠ [] →
  ∃ s1,
    generate_response self message
    = Ok (s1, lit "Nice to meet you, " ++ name
              ++ lit "! How can I help you today?")
    ∧ context s1 = <[key_user_name := VStr name]> (context self)
    ∧ ∀ ask, turn_intent s1 ask = Ok name_query →
        ∃ s2,
          generate_response s1 ask
          = Ok (s2, lit "Your name is " ++ name ++ lit "!")
          ∧ context s2 = context s1.
Proof.
  intros Hintent Hname Hne.
  destruct (generate_response_ok self message)
    as (label & ctx1 & reply & Hl & Hdisp & Hgen).
  rewrite Hintent in Hl. injection Hl as <-.
  apply dispatch_cases in Hdisp. revert Hgen.
  remember name_introduction as label eqn:Hlabel.
  destruct Hdisp as [name' Hname' _ | Hnone | | | | | | | ? ? Hother];
    try other_label Hlabel; intros Hgen.
  - rewrite Hname in Hname'. injection Hname' as <-.
    match type of Hgen with _ = Ok (?s, _) => set (s1 := s) in * end.
    exists s1. split; [exact Hgen|]. split; [done|].
    intros ask Hask.
    destruct (generate_response_ok s1 ask)
      as (label2 & ctx2 & reply2 & Hl2 & Hdisp2 & Hgen2).
    rewrite Hask in Hl2. injection Hl2 as <-.
    apply dispatch_cases in Hdisp2. unfold s1 in Hdisp2.
    cbn [context] in Hdisp2. revert Hgen2.
    remember name_query as label2 eqn:Hlabel2.
    destruct Hdisp2 as [| | stored Hstored | Hstored | | | | | ? ? ? Hother];
      try other_label Hlabel2; intros Hgen2.
    + rewrite lookup_insert_eq in Hstored. injection Hstored as <-.
      eexists. split; [exact Hgen2 | done].
    + by rewrite lookup_insert_eq in Hstored.
    + by subst.
  - destruct Hnone as [Hnone | Hnone]; rewrite Hname in Hnone; congruence.
  - by subst.
Qed.

Lemma name_round_trip_witness :
  ∃ s1 s2,
    @generate_response latin1_text init (lit "My name is Mira")
    = Ok (s1, lit "Nice to meet you, Mira! How can I help you today?")
    ∧ @generate_response latin1_text s1 (lit "What's my name?")
      = Ok (s2, lit "Your name is Mira!").
Proof.
  destruct (@name_round_trip latin1_text init (lit "My name is Mira")
              (lit "Mira")) as (s1 & Hgen & Hctx & Hask);
    [by vm_compute | by vm_compute | by vm_compute |].
  destruct (Hask (lit "What's my name?")) as (s2 & Hgen2 & _).
  { vm_compute in Hgen. injection Hgen as <-. by vm_compute. }
  by exists s1, s2.
Defined.

(** Names that are not there: a [name_introduction] turn from which no
    name can be extracted asks for the name, and a [name_query] turn on a
    session that holds no [user_name] says so; neither changes the
    context. *)
Theorem name_missing `{PyText} (self : MockChatbot) (message : str) :
  (turn_intent self message = Ok name_introduction →
   extract_name message = None →
   ∃ self',
     generate_response self message
     = Ok (self', lit "Nice to meet you! What's your name?")
     ∧ context self' = context self)
  ∧ (turn_intent self message = Ok name_query →
     context self !! key_user_name = None →
     ∃ self',
       generate_response self message
       = Ok (self', lit "I don't know your name yet. What should I call you?")
       ∧ context self' = context self).
Proof.
  split; intros Hintent Hnone;
    destruct (generate_response_ok self message)
      as (label & ctx1 & reply & Hl & Hdisp & Hgen);
    rewrite Hintent in Hl; injection Hl as <-;
    apply dispatch_cases in Hdisp; revert Hgen.
  - remember name_introduction as label eqn:Hlabel.
    destruct Hdisp as [name' Hname' _ | | | | | | | | ? ? Hother];
      try other_label Hlabel; intros Hgen.
    + congruence.
    + eexists. split; [exact Hgen | done].
    + by subst.
  - remember name_query as label eqn:Hlabel.
    destruct Hdisp as [| | stored Hstored | | | | | | ? ? ? Hother];
      try other_label Hlabel; intros Hgen.
    + congruence.
    + eexists. split; [exact Hgen | done].
    + by subst.
Qed.

(** "I'm" alone is an introduction without a name; "who am i" on a new
    session is a query without an answer. *)
Lemma name_missing_witness :
  (∃ self',
     @generate_response latin1_text init (lit "I'm")
     = Ok (self', lit "Nice to meet you! What's your name?")
     ∧ context self' = ∅)
  ∧ (∃ self',
       @generate_response latin1_text init (lit "Who am I")
       = Ok (self', lit "I don't know your name yet. What should I call you?")
       ∧ context self' = ∅).
Proof.
  split.
  - apply (@name_missing latin1_text init (lit "I'm")); by vm_compute.
  - apply (@name_missing latin1_text init (lit "Who am I")); by vm_compute.
Defined.

(** *** What the context holds *)

Lemma well_formed_empty : well_formed ∅.
Proof. intros k v Hk. by rewrite lookup_empty in Hk. Qed.

Lemma well_formed_insert (ctx : gmap str value) (k : str) (v : value) :
  well_formed ctx → well_formed {[ k := v ]} → well_formed (<[k := v]> ctx).
Proof.
  intros Hctx Hkv k' v' Hk'.
  destruct (decide (k = k')) as [<-|Hne].
  - rewrite lookup_insert_eq in Hk'. injection Hk' as <-.
    apply (Hkv k v). apply lookup_singleton_eq.
  - rewrite lookup_insert_ne in Hk' by done. by apply (Hctx k' v').
Qed.

Lemma well_formed_singleton_name (name : str) :
  name ≠ [] → well_formed {[ key_user_name := VStr name ]}.
Proof.
  intros Hne k v [<- <-]%lookup_singleton_Some. left. eauto.
Qed.

Lemma well_formed_singleton_started (b : bool) :
  well_formed {[ key_booking_started := VBool b ]}.
Proof.
  intros k v [<- <-]%lookup_singleton_Some. right; left. eauto.
Qed.

Lemma well_formed_singleton_time (text : str) :
  well_formed {[ key_booking_time := VStr text ]}.
Proof.
  intros k v [<- <-]%lookup_singleton_Some. right; right. eauto.
Qed.

Lemma dispatch_case_well_formed `{PyText} (ctx ctx' : gmap str value)
    (message label reply : str) :
  dispatch_case ctx message label ctx' reply →
  well_formed ctx → well_formed ctx'.
Proof.
  destruct 1; intros Hctx; try done;
    auto using well_formed_insert, well_formed_singleton_name,
      well_formed_singleton_started, well_formed_singleton_time.
Qed.

(** The context of a session holds nothing but a non-empty string under
    [user_name], a boolean under [booking_started] and a string under
    [booking_time]: the property holds on a new session and is kept by every
    sequence of calls. *)
Theorem context_stays_well_formed `{PyText} (self final : MockChatbot)
    (ops : list op) :
  well_formed (context self) → run self ops = Ok final →
  well_formed (context final).
Proof.
  revert self. induction ops as [|[message|] ops IH]; intros self Hwf.
  - by intros [= <-].
  - cbn [run].
    destruct (generate_response self message) as [[s1 reply]|e] eqn:Hgen;
      [|done].
    rewrite bind_Ok. apply IH.
    apply generate_response_inv in Hgen as (label & _ & Hcase & _).
    by eapply dispatch_case_well_formed.
  - cbn [run]. apply IH. apply well_formed_empty.
Qed.

Lemma context_stays_well_formed_witness :
  ∃ final,
    @run latin1_text init
      [OpProcess (lit "I want to book a meeting"); OpReset;
       OpProcess (lit "call me Al"); OpProcess (lit "schedule it");
       OpProcess (lit "monday morning")] = Ok final
    ∧ well_formed (context final).
Proof.
  destruct (@run_total latin1_text init
              [OpProcess (lit "I want to book a meeting"); OpReset;
               OpProcess (lit "call me Al"); OpProcess (lit "schedule it");
               OpProcess (lit "monday morning")]) as (final & Hrun).
  exists final. split; [exact Hrun|].
  apply (@context_stays_well_formed latin1_text init final _
           well_formed_empty Hrun).
Defined.

(** *** Booking mode *)

Lemma turn_intent_override `{PyText} (self : MockChatbot) (message : str) :
  turn_intent self message
  = if in_booking_mode (context self) && time_like message
    then Ok booking_time else get_intent message.
Proof.
  unfold turn_intent, in_booking_mode, time_like. by rewrite andb_assoc.
Qed.

(** While a booking is open, any text that looks like a time is taken as
    the time of the booking, whatever the resolver would make of it: the
    text is stored verbatim under [booking_time], [booking_started] becomes
    false, the reply is the confirmation, and both records of the turn carry
    [booking_time]. *)
Theorem booking_mode_takes_time_like_text `{PyText} (self : MockChatbot)
    (message : str) :
  in_booking_mode (context self) = true → time_like message = true →
  ∃ self',
    generate_response self message = Ok (self', confirmation)
    ∧ context self'
      = <[key_booking_started := VBool false]>
          (<[key_booking_time := VStr message]> (context self))
    ∧ conversation_history self'
      = conversation_history self
        ++ [Turn user message booking_time;
            Turn assistant confirmation booking_time].
Proof.
  intros Hmode Htime. eexists. split.
  { unfold generate_response.
    rewrite turn_intent_override, Hmode, Htime. cbn [andb].
    rewrite bind_Ok, dispatch_booking_time, bind_Ok. cbn beta iota.
    by rewrite <- app_assoc. }
  split; reflexivity.
Qed.

(** With a booking open, "Cancel it on Friday" confirms the booking; the
    resolver alone would have answered [cancel]. *)
Lemma booking_mode_takes_time_like_text_witness :
  @get_intent latin1_text (lit "Cancel it on Friday") = Ok cancel
  ∧ ∃ self',
      @generate_response latin1_text
        {| conversation_history := [];
           context := {[ key_booking_started := VBool true ]} |}
        (lit "Cancel it on Friday") = Ok (self', confirmation)
      ∧ context self' !! key_booking_time
        = Some (VStr (lit "Cancel it on Friday")).
Proof.
  split; [by vm_compute|].
  destruct (@booking_mode_takes_time_like_text latin1_text
              {| conversation_history := [];
                 context := {[ key_booking_started := VBool true ]} |}
              (lit "Cancel it on Friday"))
    as (self' & Hgen & Hctx & _); [by vm_compute | by vm_compute |].
  exists self'. split; [exact Hgen|]. rewrite Hctx. by vm_compute.
Defined.

Lemma responses_not_confirmation (label reply : str) :
  responses !! label = Some reply → reply ≠ confirmation.
Proof.
  intros Hin. apply elem_of_list_to_map_2 in Hin.
  repeat (apply elem_of_cons in Hin as [[= _ ->]|Hin]; [by vm_compute|]).
  by apply elem_of_nil in Hin.
Qed.

(** No booking is confirmed that was not opened: on a session that is not
    in booking mode no turn gets the intent [booking_time], no reply is the
    confirmation, and [booking_time] in the context is left alone. *)
Theorem no_confirmation_outside_booking_mode `{PyText}
    (self self' : MockChatbot) (message reply : str) :
  in_booking_mode (context self) = false →
  generate_response self message = Ok (self', reply) →
  turn_intent self message ≠ Ok booking_time
  ∧ reply ≠ confirmation
  ∧ context self' !! key_booking_time = context self !! key_booking_time.
Proof.
  intros Hmode (label & Hlabel & Hcase & _)%generate_response_inv.
  assert (label ≠ booking_time) as Hnot.
  { rewrite turn_intent_override, Hmode in Hlabel. cbn [andb] in Hlabel.
    rewrite get_intent_resolve in Hlabel. injection Hlabel as <-.
    apply resolve_not_booking_time. }
  split; [rewrite Hlabel; congruence|].
  pose proof key_user_name_ne_time as Hut.
  pose proof key_booking_started_ne_time as Hst.
  destruct Hcase; try done;
    (split; [|by rewrite ?lookup_insert_ne by done]);
    try (intros Hx; vm_compute in Hx; discriminate Hx).
  subst reply. destruct (responses !! label) as [canned|] eqn:Hcanned; simpl.
  - by eapply responses_not_confirmation.
  - intros Hx; vm_compute in Hx; discriminate Hx.
Qed.

Lemma no_confirmation_outside_booking_mode_witness :
  ∃ self' reply,
    @generate_response latin1_text init (lit "Tomorrow at 2pm")
    = Ok (self', reply)
    ∧ reply ≠ confirmation
    ∧ context self' !! key_booking_time = None.
Proof.
  destruct (@generate_response_total latin1_text init (lit "Tomorrow at 2pm"))
    as (self' & reply & Hgen).
  exists self', reply. split; [exact Hgen|].
  destruct (@no_confirmation_outside_booking_mode latin1_text init self'
              (lit "Tomorrow at 2pm") reply) as (_ & Hreply & Hkey);
    [by vm_compute | exact Hgen |].
  split; [exact Hreply|]. by rewrite Hkey.
Defined.

Lemma in_booking_mode_insert_ne (ctx : gmap str value) (k : str) (v : value) :
  k ≠ key_booking_started →
  in_booking_mode (<[k := v]> ctx) = in_booking_mode ctx.
Proof.
  intros Hk. unfold in_booking_mode. by rewrite lookup_insert_ne.
Qed.

Lemma in_booking_mode_insert (ctx : gmap str value) (b : bool) :
  in_booking_mode (<[key_booking_started := VBool b]> ctx) = b.
Proof.
  unfold in_booking_mode. by rewrite lookup_insert_eq.
Qed.

(** How booking mode moves: after a turn the session is in booking mode
    exactly when the turn's intent was [booking], or the session was in
    booking mode before and the turn's intent was not [booking_time]. *)
Theorem booking_mode_transition `{PyText} (self self' : MockChatbot)
    (message reply : str) :
  generate_response self message = Ok (self', reply) →
  ∃ label,
    turn_intent self message = Ok label
    ∧ in_booking_mode (context self')
      = str_eqb label booking
        || in_booking_mode (context self) && negb (str_eqb label booking_time).
Proof.
  intros (label & Hlabel & Hcase & _)%generate_response_inv.
  exists label. split; [done|].
  destruct Hcase;
    rewrite ?in_booking_mode_insert,
      ?in_booking_mode_insert_ne by (by vm_compute);
    try (by rewrite ?andb_true_r).
  - by rewrite andb_false_r.
  - assert (str_eqb label booking = false) as -> by (by apply str_eqb_neq).
    assert (str_eqb label booking_time = false) as ->
        by (by apply str_eqb_neq).
    by rewrite andb_true_r.
Qed.

(** A greeting in the middle of a booking leaves the booking open. *)
Lemma booking_mode_transition_witness :
  ∃ self' reply,
    @generate_response latin1_text
      {| conversation_history := [];
         context := {[ key_booking_started := VBool true ]} |}
      (lit "hello") = Ok (self', reply)
    ∧ in_booking_mode (context self') = true.
Proof.
  destruct (@generate_response_total latin1_text
              {| conversation_history := [];
                 context := {[ key_booking_started := VBool true ]} |}
              (lit "hello")) as (self' & reply & Hgen).
  exists self', reply. split; [exact Hgen|].
  destruct (@booking_mode_transition latin1_text _ _ _ _ Hgen)
    as (label & Hlabel & ->).
  vm_compute in Hlabel. injection Hlabel as <-. by vm_compute.
Defined.

(** *** Reset *)

(** What a session does after [reset()] does not depend on what came
    before: the calls after the last reset act as on a new session. *)
Theorem reset_forgets `{PyText} (self : MockChatbot) (ops1 ops2 : list op) :
  run self (ops1 ++ OpReset :: ops2) = run init ops2.
Proof.
  destruct (run_total self ops1) as (mid & Hmid).
  by rewrite (run_app _ _ _ _ Hmid).
Qed.

(** ** Replies *)

Lemma split_ws_go_length_zero (s cur : str) :
  length (split_ws_go s cur) = 0 ↔ cur = [] ∧ forallb isspace s = true.
Proof.
  revert cur. induction s as [|c s IH]; intros cur; simpl.
  - destruct cur; simpl; [done|]. split; [done | by intros [? _]].
  - destruct (isspace c); simpl.
    + destruct cur; simpl.
      * rewrite IH. tauto.
      * split; [done | by intros [? _]].
    + rewrite IH. split; [by intros [? _] | by intros [_ ?]].
Qed.

Lemma split_ws_go_length_app (a b cur : str) (c : char) :
  isspace c = true →
  length (split_ws_go (a ++ c :: b) cur)
  = length (split_ws_go a cur) + length (split_ws_go b []).
Proof.
  intros Hc. revert cur. induction a as [|x a IH]; intros cur; simpl.
  - rewrite Hc. by destruct cur.
  - destruct (isspace x).
    + destruct cur; simpl; by rewrite IH.
    + apply IH.
Qed.

(** [get_response_length] counts words: it is 0 exactly on a text that is
    empty or all white space, and the count of two texts joined by a
    white-space character is the sum of their counts. *)
Theorem get_response_length_counts_words (a b : str) (c : char) :
  (get_response_length a = 0 ↔ forallb isspace a = true)
  ∧ (isspace c = true →
     get_response_length (a ++ c :: b)
     = get_response_length a + get_response_length b).
Proof.
  unfold get_response_length, split_ws. split.
  - rewrite split_ws_go_length_zero. tauto.
  - apply split_ws_go_length_app.
Qed.

Lemma get_response_length_counts_words_witness :
  get_response_length (lit "  ") = 0
  ∧ get_response_length (lit "Let me check" ++ 32%N :: lit "the status") = 5.
Proof.
  destruct (get_response_length_counts_words (lit "  ") [] 32%N) as [Hz _].
  destruct (get_response_length_counts_words (lit "Let me check")
              (lit "the status") 32%N) as [_ Hsum].
  split.
  - apply Hz. by vm_compute.
  - etrans; [apply Hsum; by vm_compute | by vm_compute].
Defined.

Lemma responses_three_words (label reply : str) :
  responses !! label = Some reply → 3 ≤ get_response_length reply.
Proof.
  intros Hin. apply elem_of_list_to_map_2 in Hin.
  repeat (apply elem_of_cons in Hin as [[= _ ->]|Hin];
          [apply Nat.leb_le; by vm_compute|]).
  by apply elem_of_nil in Hin.
Qed.

(** Every reply of [generate_response] has at least three words, whatever
    the session and the text. *)
Theorem reply_has_three_words `{PyText} (self self' : MockChatbot)
    (message reply : str) :
  generate_response self message = Ok (self', reply) →
  3 ≤ get_response_length reply.
Proof.
  intros (label & _ & Hcase & _)%generate_response_inv.
  destruct Hcase; try (apply Nat.leb_le; by vm_compute).
  subst reply. destruct (responses !! label) as [canned|] eqn:Hcanned; simpl.
  - by eapply responses_three_words.
  - apply Nat.leb_le. by vm_compute.
Qed.

Lemma reply_has_three_words_witness :
  ∃ self' reply,
    @generate_response latin1_text init [] = Ok (self', reply)
    ∧ 3 ≤ get_response_length reply.
Proof.
  destruct (@generate_response_total latin1_text init [])
    as (self' & reply & Hgen).
  exists self', reply. split; [exact Hgen|].
  exact (@reply_has_three_words latin1_text _ _ _ _ Hgen).
Defined.

Lemma responses_shape (label reply : str) :
  responses !! label = Some reply →
  starts_with_capital reply ∧ ends_with_punctuation reply.
Proof.
  intros Hin. apply elem_of_list_to_map_2 in Hin.
  unfold starts_with_capital, ends_with_punctuation.
  repeat (apply elem_of_cons in Hin as [[= _ ->]|Hin];
          [split; [eexists _, _; split; [by vm_compute | lia]
                  | vm_compute; tauto]|]).
  by apply elem_of_nil in Hin.
Qed.

(** Every reply starts with a capital letter A-Z, and every reply ends
    with ".", "!" or "?" except the one asking again for the time of a
    booking, which ends with ")". *)
Theorem reply_shape `{PyText} (self self' : MockChatbot)
    (message reply : str) :
  generate_response self message = Ok (self', reply) →
  starts_with_capital reply
  ∧ (ends_with_punctuation reply
     ∨ (reply = specify_time ∧ last reply = Some 41%N
        ∧ turn_intent self message = Ok booking
        ∧ in_booking_mode (context self) = true)).
Proof.
  intros (label & Hlabel & Hcase & _)%generate_response_inv.
  unfold starts_with_capital, ends_with_punctuation.
  destruct Hcase.
  - split; [eexists _, _; split; [by vm_compute | lia]|].
    left. right; right. by rewrite !last_app.
  - split; [eexists _, _; split; [by vm_compute | lia]|].
    left. vm_compute. tauto.
  - split; [eexists _, _; split; [by vm_compute | lia]|].
    left. right; left. by rewrite !last_app.
  - split; [eexists _, _; split; [by vm_compute | lia]|].
    left. vm_compute. tauto.
  - split; [eexists _, _; split; [by vm_compute | lia]|].
    left. vm_compute. tauto.
  - split; [eexists _, _; split; [by vm_compute | lia]|].
    left. vm_compute. tauto.
  - split; [eexists _, _; split; [by vm_compute | lia]|].
    right. by repeat split.
  - split; [eexists _, _; split; [by vm_compute | lia]|].
    left. vm_compute. tauto.
  - subst reply. destruct (responses !! label) as [canned|] eqn:Hcanned; simpl.
    + destruct (responses_shape _ _ Hcanned) as [Hstart Hend].
      split; [exact Hstart | left; exact Hend].
    + split; [eexists _, _; split; [by vm_compute | lia]|].
      left. vm_compute. tauto.
Qed.

(** Asking to book twice in a row gives the one reply that does not end
    with ".", "!" or "?". *)
Lemma reply_shape_witness :
  ∃ self' reply,
    @generate_response latin1_text
      {| conversation_history := [];
         context := {[ key_booking_started := VBool true ]} |}
      (lit "book it") = Ok (self', reply)
    ∧ starts_with_capital reply
    ∧ last reply = Some 41%N.
Proof.
  destruct (@generate_response_total latin1_text
              {| conversation_history := [];
                 context := {[ key_booking_started := VBool true ]} |}
              (lit "book it")) as (self' & reply & Hgen).
  exists self', reply. split; [exact Hgen|].
  destruct (@reply_shape latin1_text _ _ _ _ Hgen) as [Hstart Hend].
  split; [exact Hstart|].
  vm_compute in Hgen. injection Hgen as _ <-. by vm_compute.
Defined.

(** ** Confidence *)

(** The confidence table: the score is 0.3, 0.85 or 0.95; it is below 0.5
    exactly for the label "unknown" and at least 0.9 exactly for
    "greeting", "goodbye" and "thanks"; any other string, a label or not,
    scores 0.85. *)
Theorem confidence_table (label : str) :
  (Qlt (calculate_confidence label) (1 # 2) ↔ label = unknown)
  ∧ (Qle (9 # 10) (calculate_confidence label)
     ↔ label = greeting ∨ label = goodbye ∨ label = thanks)
  ∧ (label ≠ unknown → label ≠ greeting → label ≠ goodbye →
     label ≠ thanks → calculate_confidence label = 85 # 100)
  ∧ Qle 0 (calculate_confidence label) ∧ Qle (calculate_confidence label) 1.
Proof.
  unfold calculate_confidence. cbn [existsb].
  destruct (str_eqb label (lit "unknown")) eqn:Hu.
  { apply str_eqb_eq in Hu as ->. repeat split; try done.
    intros [Hx | [Hx | Hx]]; vm_compute in Hx; discriminate Hx. }
  apply str_eqb_neq in Hu.
  destruct (str_eqb label (lit "greeting")) eqn:Hg.
  { apply str_eqb_eq in Hg as ->. cbn [orb]. repeat split; try done.
    by left. }
  apply str_eqb_neq in Hg.
  destruct (str_eqb label (lit "goodbye")) eqn:Hb.
  { apply str_eqb_eq in Hb as ->. cbn [orb]. repeat split; try done.
    right; by left. }
  apply str_eqb_neq in Hb.
  destruct (str_eqb label (lit "thanks")) eqn:Ht.
  { apply str_eqb_eq in Ht as ->. cbn [orb]. repeat split; try done.
    right; by right. }
  apply str_eqb_neq in Ht. cbn [orb].
  repeat split; try done.
  intros [Hx | [Hx | Hx]]; by subst.
Qed.

Lemma confidence_table_witness :
  calculate_confidence (lit "no such intent") = 85 # 100.
Proof.
  apply (confidence_table (lit "no such intent")); by vm_compute.
Defined.

(** ** [Conversation] *)

Lemma send_inv `{PyText} (self self' : Conversation.t) (message reply : str) :
  Conversation.send self message = Ok (self', reply) →
  generate_response (Conversation.chatbot self) message
  = Ok (Conversation.chatbot self', reply)
  ∧ Conversation.last_response self' = reply.
Proof.
  unfold Conversation.send.
  destruct (generate_response _ message) as [[bot response]|e]; [|done].
  rewrite bind_Ok. by intros [= <- <-].
Qed.

(** A conversation is its chatbot: the calls made on the conversation
    leave its chatbot as the same calls made on the chatbot directly. *)
Theorem conversation_runs_chatbot `{PyText} (self final : Conversation.t)
    (calls : list Conversation.call) :
  Conversation.run self calls = Ok final →
  run (Conversation.chatbot self) (call_op <$> calls)
  = Ok (Conversation.chatbot final).
Proof.
  revert self. induction calls as [|[message|] calls IH]; intros self.
  - by intros [= <-].
  - cbn [Conversation.run fmap list_fmap call_op run].
    destruct (Conversation.send self message) as [[s1 reply]|e] eqn:Hsend;
      [|done].
    rewrite bind_Ok. intros Hrun.
    apply send_inv in Hsend as [-> _]. rewrite bind_Ok. by apply IH.
  - cbn [Conversation.run fmap list_fmap call_op run]. apply IH.
Qed.

(** After any calls on a new conversation, [last_response] is the content
    of the last record of the history, which is an assistant record; it is
    empty exactly when the history is. *)
Theorem last_response_follows_history `{PyText} (final : Conversation.t)
    (calls : list Conversation.call) :
  Conversation.run Conversation.init calls = Ok final →
  last_response_in_step final.
Proof.
  assert (∀ self, last_response_in_step self →
                  Conversation.run self calls = Ok final →
                  last_response_in_step final) as Hgeneral.
  { induction calls as [|[message|] calls IH]; intros self Hself.
    - by intros [= <-].
    - cbn [Conversation.run].
      destruct (Conversation.send self message) as [[s1 reply]|e] eqn:Hsend;
        [|done].
      rewrite bind_Ok. apply IH.
      apply send_inv in Hsend as [Hgen Hlast].
      apply generate_response_inv in Hgen as (label & _ & _ & Hhist).
      unfold last_response_in_step, Conversation.get_history,
        get_conversation_history.
      rewrite Hhist, last_app. simpl. by rewrite Hlast.
    - cbn [Conversation.run]. by apply IH. }
  by apply Hgeneral.
Qed.

Lemma conversation_run_total `{PyText} (self : Conversation.t)
    (calls : list Conversation.call) :
  ∃ final, Conversation.run self calls = Ok final.
Proof.
  revert self. induction calls as [|[message|] calls IH]; intros self.
  - by eexists.
  - cbn [Conversation.run]. unfold Conversation.send.
    destruct (generate_response_total (Conversation.chatbot self) message)
      as (bot & reply & ->).
    rewrite !bind_Ok. apply IH.
  - cbn [Conversation.run]. apply IH.
Qed.

Lemma conversation_runs_chatbot_witness :
  ∃ final,
    @Conversation.run latin1_text Conversation.init
      [Conversation.Send (lit "hello"); Conversation.Clear;
       Conversation.Send (lit "My name is Mira")] = Ok final
    ∧ Conversation.get_context final
      = {[ key_user_name := VStr (lit "Mira") ]}
    ∧ length (Conversation.get_history final) = 2.
Proof.
  destruct (@conversation_run_total latin1_text Conversation.init
              [Conversation.Send (lit "hello"); Conversation.Clear;
               Conversation.Send (lit "My name is Mira")])
    as (final & Hrun).
  exists final. split; [exact Hrun|].
  pose proof (@conversation_runs_chatbot latin1_text _ _ _ Hrun) as Hbot.
  unfold Conversation.get_context, Conversation.get_history, get_context,
    get_conversation_history.
  remember (Conversation.chatbot final) as bot eqn:Hfinal. clear Hfinal.
  vm_compute in Hbot. injection Hbot as <-. split; by vm_compute.
Defined.

Lemma last_response_follows_history_witness :
  ∃ final,
    @Conversation.run latin1_text Conversation.init
      [Conversation.Send (lit "hello"); Conversation.Send (lit "bye")]
    = Ok final
    ∧ last_response_in_step final.
Proof.
  destruct (@conversation_run_total latin1_text Conversation.init
              [Conversation.Send (lit "hello"); Conversation.Send (lit "bye")])
    as (final & Hrun).
  exists final. split; [exact Hrun|].
  exact (@last_response_follows_history latin1_text _ _ Hrun).
Defined.

(** ** The metric helpers, further *)

Lemma count_if_ext (f g : str → str → bool) (pairs : list (str * str)) :
  (∀ a b, f a b = g a b) → count_if f pairs = count_if g pairs.
Proof.
  intros Hfg. induction pairs as [|[a b] pairs IH]; [done|].
  simpl. by rewrite Hfg, IH.
Qed.

Lemma count_if_swap (f : str → str → bool) (xs ys : list str) :
  count_if f (zip ys xs) = count_if (λ a b, f b a) (zip xs ys).
Proof.
  revert ys. induction xs as [|x xs IH]; intros [|y ys]; try done.
  simpl. by rewrite IH.
Qed.

Lemma str_eqb_sym (a b : str) : str_eqb a b = str_eqb b a.
Proof.
  destruct (str_eqb a b) eqn:Hab.
  - apply str_eqb_eq in Hab as ->. by rewrite str_eqb_refl.
  - apply str_eqb_neq in Hab. symmetry. by apply str_eqb_neq.
Qed.

(** Accuracy does not depend on which sequence is called the prediction:
    swapping the arguments gives the same result, the error included. *)
Theorem calculate_accuracy_symmetric (predictions ground_truth : list str) :
  calculate_accuracy ground_truth predictions
  = calculate_accuracy predictions ground_truth.
Proof.
  unfold calculate_accuracy.
  rewrite (Nat.eqb_sym (length ground_truth)).
  destruct (Nat.eqb_spec (length predictions) (length ground_truth))
    as [Hlen|Hlen]; cbn [negb]; [|done].
  rewrite <- Hlen. destruct (length predictions =? 0); [done|].
  rewrite count_if_swap. f_equal.
  apply count_if_ext. intros a b. apply str_eqb_sym.
Qed.

Lemma count_if_full (xs ys : list str) :
  length xs = length ys →
  count_if str_eqb (zip xs ys) = length xs → xs = ys.
Proof.
  revert ys. induction xs as [|x xs IH]; intros [|y ys] Hlen; try done.
  injection Hlen as Hlen. simpl.
  pose proof (count_if_le str_eqb (zip xs ys)) as Hle.
  rewrite length_zip, <- Hlen, Nat.min_id in Hle.
  destruct (str_eqb x y) eqn:Hxy; [|lia].
  apply str_eqb_eq in Hxy as ->. intros Hcount. f_equal. apply IH; [done|lia].
Qed.

Lemma count_if_same (xs : list str) : count_if str_eqb (zip xs xs) = length xs.
Proof.
  induction xs as [|x xs IH]; [done|]. simpl. by rewrite str_eqb_refl, IH.
Qed.

(** On two non-empty sequences of the same length the accuracy is 1
    exactly when the predictions are the ground truth. *)
Theorem calculate_accuracy_one (predictions ground_truth : list str) :
  length predictions = length ground_truth → predictions ≠ [] →
  ∃ q, calculate_accuracy predictions ground_truth = Ok q
       ∧ (Qeq q 1 ↔ predictions = ground_truth).
Proof.
  intros Hlen Hne. unfold calculate_accuracy.
  rewrite Hlen, Nat.eqb_refl. cbn [negb]. rewrite <- Hlen.
  destruct predictions as [|x xs]; [done|].
  cbn [length Nat.eqb truediv]. eexists. split; [reflexivity|].
  unfold Qeq. cbn [Qnum Qden]. split.
  - intros Hq. apply count_if_full; [done|]. cbn [length]. lia.
  - intros <-. rewrite count_if_same. cbn [length]. lia.
Qed.

Lemma calculate_accuracy_one_witness :
  ∃ q, calculate_accuracy [lit "help"; lit "thanks"] [lit "help"; lit "thanks"]
       = Ok q ∧ Qeq q 1.
Proof.
  destruct (calculate_accuracy_one [lit "help"; lit "thanks"]
              [lit "help"; lit "thanks"]) as (q & Hq & Hone);
    [done | done |].
  exists q. split; [exact Hq|]. by apply Hone.
Defined.

(** *** Precision and recall *)

(** The guarded quotient of [calculate_precision_recall]. *)
Lemma ratio_ok (a b : nat) :
  ∃ q, (if 0 <? a + b then truediv a (a + b) else Ok 0%Q) = Ok q
       ∧ Qle 0 q ∧ Qle q 1
       ∧ (a = 0 → Qeq q 0)
       ∧ (0 < a → b = 0 → Qeq q 1).
Proof.
  destruct (a + b) as [|n] eqn:Hsum.
  - exists 0%Q. repeat split; try done. lia.
  - cbn [Nat.ltb Nat.leb truediv]. eexists. split; [reflexivity|].
    unfold Qle, Qeq. cbn [Qnum Qden].
    repeat split; lia.
Qed.

(** Precision and recall are always defined and lie between 0 and 1,
    whatever the two sequences and the label. *)
Theorem precision_recall_in_range (predictions ground_truth : list str)
    (label : str) :
  ∃ precision recall,
    calculate_precision_recall predictions ground_truth label
    = Ok (precision, recall)
    ∧ Qle 0 precision ∧ Qle precision 1
    ∧ Qle 0 recall ∧ Qle recall 1.
Proof.
  unfold calculate_precision_recall.
  destruct (ratio_ok
              (count_if (λ pred true_, str_eqb pred label
                                       && str_eqb true_ label)
                 (zip predictions ground_truth))
              (count_if (λ pred true_, str_eqb pred label
                                       && negb (str_eqb true_ label))
                 (zip predictions ground_truth)))
    as (precision & -> & ? & ? & _).
  destruct (ratio_ok
              (count_if (λ pred true_, str_eqb pred label
                                       && str_eqb true_ label)
                 (zip predictions ground_truth))
              (count_if (λ pred true_, negb (str_eqb pred label)
                                       && str_eqb true_ label)
                 (zip predictions ground_truth)))
    as (recall & -> & ? & ? & _).
  rewrite !bind_Ok. exists precision, recall.
  split_and!; first [reflexivity | assumption].
Qed.

(** Swapping predictions and ground truth swaps precision and recall. *)
Theorem precision_recall_swap (predictions ground_truth : list str)
    (label : str) (precision recall : Q) :
  calculate_precision_recall predictions ground_truth label
  = Ok (precision, recall) →
  calculate_precision_recall ground_truth predictions label
  = Ok (recall, precision).
Proof.
  unfold calculate_precision_recall.
  rewrite !(count_if_swap _ predictions ground_truth).
  rewrite (count_if_ext
             (λ a b, str_eqb b label && str_eqb a label)
             (λ a b, str_eqb a label && str_eqb b label))
    by (intros; apply andb_comm).
  rewrite (count_if_ext
             (λ a b, str_eqb b label && negb (str_eqb a label))
             (λ a b, negb (str_eqb a label) && str_eqb b label))
    by (intros; apply andb_comm).
  rewrite (count_if_ext
             (λ a b, negb (str_eqb b label) && str_eqb a label)
             (λ a b, str_eqb a label && negb (str_eqb b label)))
    by (intros; apply andb_comm).
  set (both := count_if _ _). set (first := count_if _ _).
  set (second := count_if _ _).
  destruct (ratio_ok both first) as (q1 & -> & _).
  destruct (ratio_ok both second) as (q2 & -> & _).
  rewrite !bind_Ok. by intros [= <- <-].
Qed.

Lemma precision_recall_swap_witness :
  calculate_precision_recall [lit "help"; lit "help"; lit "thanks"]
    [lit "help"; lit "thanks"; lit "thanks"] (lit "help")
  = Ok (1 # 2, 1 # 1)
  ∧ calculate_precision_recall [lit "help"; lit "thanks"; lit "thanks"]
      [lit "help"; lit "help"; lit "thanks"] (lit "help")
    = Ok (1 # 1, 1 # 2).
Proof.
  assert (calculate_precision_recall [lit "help"; lit "help"; lit "thanks"]
            [lit "help"; lit "thanks"; lit "thanks"] (lit "help")
          = Ok (1 # 2, 1 # 1)) as Hpr by (by vm_compute).
  split; [exact Hpr|]. by apply precision_recall_swap.
Defined.

Lemma count_if_same_pairs (f : str → str → bool) (xs : list str) :
  count_if f (zip xs xs)
  = length (filter (λ x, f x x = true) xs).
Proof.
  induction xs as [|x xs IH]; [done|]. simpl.
  destruct (f x x) eqn:Hx.
  - rewrite filter_cons_True by done. simpl. by rewrite IH.
  - rewrite filter_cons_False by (by rewrite Hx). by rewrite IH.
Qed.

Lemma count_if_never (f : str → str → bool) (pairs : list (str * str)) :
  (∀ a b, f a b = false) → count_if f pairs = 0.
Proof.
  intros Hf. induction pairs as [|[a b] pairs IH]; [done|].
  simpl. by rewrite Hf, IH.
Qed.

Lemma count_if_diagonal (label : str) (xs : list str) :
  count_if (λ pred true_, str_eqb pred label && str_eqb true_ label)
    (zip xs xs) = occurrences label xs.
Proof.
  induction xs as [|x xs IH]; [done|]. simpl.
  rewrite IH. by destruct (str_eqb x label).
Qed.

Lemma count_if_off_diagonal (f : str → str → bool) (xs : list str) :
  (∀ x, f x x = false) → count_if f (zip xs xs) = 0.
Proof.
  intros Hf. induction xs as [|x xs IH]; [done|].
  simpl. by rewrite Hf, IH.
Qed.

(** Predictions that are the ground truth score precision 1 and recall 1
    on every label that occurs, and 0 and 0 on a label that does not. *)
Theorem precision_recall_perfect (labels : list str) (label : str) :
  ∃ precision recall,
    calculate_precision_recall labels labels label = Ok (precision, recall)
    ∧ (occurrences label labels = 0 → Qeq precision 0 ∧ Qeq recall 0)
    ∧ (0 < occurrences label labels → Qeq precision 1 ∧ Qeq recall 1).
Proof.
  unfold calculate_precision_recall.
  rewrite count_if_diagonal.
  rewrite !(count_if_off_diagonal _ labels);
    [| intros x; by destruct (str_eqb x label)
     | intros x; by destruct (str_eqb x label)].
  destruct (ratio_ok (occurrences label labels) 0)
    as (q & -> & _ & _ & Hzero & Hone).
  rewrite !bind_Ok. exists q, q. split; [done|]. split.
  - intros Hocc. split; by apply Hzero.
  - intros Hocc. split; by apply Hone.
Qed.

Lemma precision_recall_perfect_witness :
  ∃ precision recall,
    calculate_precision_recall [lit "help"; lit "thanks"]
      [lit "help"; lit "thanks"] (lit "help") = Ok (precision, recall)
    ∧ Qeq precision 1 ∧ Qeq recall 1.
Proof.
  destruct (precision_recall_perfect [lit "help"; lit "thanks"] (lit "help"))
    as (precision & recall & Hpr & _ & Hone).
  exists precision, recall. split; [exact Hpr|].
  apply Hone. vm_compute. lia.
Defined.

(** *** The intent distribution *)

Lemma str_eqb_decide (a b : str) : str_eqb a b = bool_decide (a = b).
Proof.
  destruct (str_eqb a b) eqn:Hab.
  - apply str_eqb_eq in Hab. by rewrite bool_decide_eq_true_2.
  - apply str_eqb_neq in Hab. by rewrite bool_decide_eq_false_2.
Qed.

Lemma distribution_loop_lookup (distribution : gmap str nat)
    (labels : list str) (label : str) :
  default 0 (distribution_loop distribution labels !! label)
  = default 0 (distribution !! label) + occurrences label labels.
Proof.
  revert distribution. induction labels as [|x labels IH]; intros d.
  - simpl. lia.
  - cbn [distribution_loop occurrences]. rewrite IH.
    destruct (str_eqb x label) eqn:Hx.
    + apply str_eqb_eq in Hx as ->. rewrite lookup_insert_eq. simpl. lia.
    + apply str_eqb_neq in Hx. rewrite lookup_insert_ne by done. lia.
Qed.

Lemma distribution_loop_positive (distribution : gmap str nat)
    (labels : list str) :
  (∀ l n, distribution !! l = Some n → 0 < n) →
  ∀ l n, distribution_loop distribution labels !! l = Some n → 0 < n.
Proof.
  revert distribution. induction labels as [|x labels IH]; intros d Hd.
  - done.
  - cbn [distribution_loop]. apply IH. intros l n.
    destruct (decide (x = l)) as [<-|Hne].
    + rewrite lookup_insert_eq. intros [= <-]. lia.
    + rewrite lookup_insert_ne by done. apply Hd.
Qed.

(** [get_intent_distribution] counts: a label that occurs [n > 0] times in
    the list is mapped to [n], and a label that does not occur is not a key
    of the result. *)
Theorem distribution_counts (labels : list str) (label : str) :
  get_intent_distribution labels !! label
  = if occurrences label labels =? 0 then None
    else Some (occurrences label labels).
Proof.
  unfold get_intent_distribution.
  pose proof (distribution_loop_lookup ∅ labels label) as Hcount.
  pose proof (distribution_loop_positive ∅ labels) as Hpos.
  rewrite lookup_empty in Hcount. simpl in Hcount.
  destruct (distribution_loop ∅ labels !! label) as [n|] eqn:Hn;
    simpl in Hcount.
  - assert (0 < n) as Hn0.
    { apply (Hpos ltac:(intros l m; by rewrite lookup_empty) label n Hn). }
    subst n. destruct (Nat.eqb_spec (occurrences label labels) 0); [lia|done].
  - by rewrite <- Hcount.
Qed.

(** *** The entries of the confusion matrix *)

Lemma entry_insert (matrix : gmap str (gmap str nat)) (row : gmap str nat)
    (true_ t p : str) :
  entry (<[true_ := row]> matrix) t p
  = if decide (true_ = t) then default 0 (row !! p) else entry matrix t p.
Proof.
  unfold entry. destruct (decide (true_ = t)) as [<-|Hne].
  - by rewrite lookup_insert_eq.
  - by rewrite lookup_insert_ne.
Qed.

Lemma confusion_step_entry (matrix matrix' : gmap str (gmap str nat))
    (pred true_ : str) :
  confusion_step matrix (pred, true_) = Ok matrix' →
  (∀ t p,
     entry matrix' t p
     = entry matrix t p
       + (if str_eqb pred p && str_eqb true_ t then 1 else 0))
  ∧ (no_zero_entry matrix → no_zero_entry matrix').
Proof.
  unfold confusion_step, dict_getitem. cbv beta iota zeta.
  destruct (matrix !! true_) as [row|] eqn:Hrow; cbv beta iota.
  - rewrite Hrow, bind_Ok.
    destruct (row !! pred) as [n|] eqn:Hn; cbv beta iota.
    + rewrite Hn, bind_Ok. intros [= <-]. split.
      * intros t p. rewrite entry_insert, !str_eqb_decide.
        destruct (decide (true_ = t)) as [<-|Ht].
        -- unfold entry. rewrite Hrow. simpl.
           rewrite (bool_decide_eq_true_2 (true_ = true_)) by done.
           rewrite andb_true_r.
           destruct (decide (pred = p)) as [<-|Hp].
           ++ rewrite lookup_insert_eq, Hn, bool_decide_eq_true_2 by done.
              simpl. lia.
           ++ rewrite lookup_insert_ne, bool_decide_eq_false_2 by done.
              simpl. lia.
        -- rewrite (bool_decide_eq_false_2 (true_ = t)) by done.
           rewrite andb_false_r. lia.
      * intros Hz t row' p m.
        destruct (decide (true_ = t)) as [<-|Ht].
        -- rewrite lookup_insert_eq. intros [= <-].
           destruct (decide (pred = p)) as [<-|Hp].
           ++ rewrite lookup_insert_eq. intros [= <-]. lia.
           ++ rewrite lookup_insert_ne by done. by apply (Hz true_ row).
        -- rewrite lookup_insert_ne by done. apply Hz.
    + rewrite lookup_insert_eq, bind_Ok. intros [= <-]. split.
      * intros t p. rewrite entry_insert, !str_eqb_decide.
        destruct (decide (true_ = t)) as [<-|Ht].
        -- unfold entry. rewrite Hrow. simpl.
           rewrite (bool_decide_eq_true_2 (true_ = true_)) by done.
           rewrite andb_true_r.
           destruct (decide (pred = p)) as [<-|Hp].
           ++ rewrite lookup_insert_eq, Hn, bool_decide_eq_true_2 by done.
              simpl. lia.
           ++ rewrite !lookup_insert_ne, bool_decide_eq_false_2 by done.
              simpl. lia.
        -- rewrite (bool_decide_eq_false_2 (true_ = t)) by done.
           rewrite andb_false_r. lia.
      * intros Hz t row' p m.
        destruct (decide (true_ = t)) as [<-|Ht].
        -- rewrite lookup_insert_eq. intros [= <-].
           destruct (decide (pred = p)) as [<-|Hp].
           ++ rewrite lookup_insert_eq. intros [= <-]. lia.
           ++ rewrite !lookup_insert_ne by done. by apply (Hz true_ row).
        -- rewrite lookup_insert_ne by done. apply Hz.
  - rewrite lookup_insert_eq, bind_Ok, lookup_empty. cbv beta iota.
    rewrite lookup_insert_eq, bind_Ok. intros [= <-]. split.
    + intros t p. rewrite entry_insert, !str_eqb_decide.
      destruct (decide (true_ = t)) as [<-|Ht].
      * unfold entry. rewrite Hrow. simpl.
        rewrite (bool_decide_eq_true_2 (true_ = true_)) by done.
        rewrite andb_true_r.
        destruct (decide (pred = p)) as [<-|Hp].
        -- rewrite lookup_insert_eq, bool_decide_eq_true_2 by done. done.
        -- rewrite !lookup_insert_ne, lookup_empty,
             bool_decide_eq_false_2 by done. done.
      * rewrite (bool_decide_eq_false_2 (true_ = t)) by done.
        rewrite entry_insert, decide_False by done.
        rewrite andb_false_r. lia.
    + intros Hz t row' p m.
      destruct (decide (true_ = t)) as [<-|Ht].
      * rewrite lookup_insert_eq. intros [= <-].
        destruct (decide (pred = p)) as [<-|Hp].
        -- rewrite lookup_insert_eq. intros [= <-]. lia.
        -- by rewrite !lookup_insert_ne, lookup_empty by done.
      * rewrite !lookup_insert_ne by done. apply Hz.
Qed.

Lemma confusion_loop_entry (matrix matrix' : gmap str (gmap str nat))
    (pairs : list (str * str)) :
  confusion_loop matrix pairs = Ok matrix' →
  (∀ t p,
     entry matrix' t p
     = entry matrix t p
       + count_if (λ pred true_, str_eqb pred p && str_eqb true_ t) pairs)
  ∧ (no_zero_entry matrix → no_zero_entry matrix').
Proof.
  revert matrix. induction pairs as [|[pred true_] pairs IH]; intros matrix.
  - intros [= <-]. split; [intros; simpl; lia | done].
  - cbn [confusion_loop].
    destruct (confusion_step matrix (pred, true_)) as [m1|e] eqn:Hstep;
      [|done].
    rewrite bind_Ok. intros Hloop.
    destruct (confusion_step_entry _ _ _ _ Hstep) as [Hentry1 Hzero1].
    destruct (IH _ Hloop) as [Hentry Hzero].
    split; [|by auto].
    intros t p. rewrite Hentry, Hentry1. simpl. lia.
Qed.

(** The confusion matrix counts pairs: [matrix[true][pred]] is the number
    of positions, among those both sequences have, where the truth is
    [true] and the prediction [pred]; where that number is 0 the matrix has
    no such entry. *)
Theorem confusion_matrix_counts (predictions ground_truth : list str)
    (matrix : gmap str (gmap str nat)) (true_ pred : str) :
  get_confusion_matrix predictions ground_truth = Ok matrix →
  let n := count_if (λ p t, str_eqb p pred && str_eqb t true_)
             (zip predictions ground_truth) in
  matrix !! true_ ≫= (λ row, row !! pred)
  = if n =? 0 then None else Some n.
Proof.
  intros Hmatrix n. unfold get_confusion_matrix in Hmatrix.
  destruct (confusion_loop_entry _ _ _ Hmatrix) as [Hentry Hzero].
  specialize (Hentry true_ pred). fold n in Hentry.
  unfold entry in Hentry. rewrite lookup_empty in Hentry. simpl in Hentry.
  destruct (matrix !! true_) as [row|] eqn:Hrow; simpl in *.
  - destruct (row !! pred) as [m|] eqn:Hm; simpl in *.
    + assert (0 < m) as Hpos.
      { apply (Hzero ltac:(intros t r p k; by rewrite lookup_empty)
                 true_ row pred m Hrow Hm). }
      rewrite <- Hentry. by destruct (Nat.eqb_spec m 0); [lia|].
    + by rewrite <- Hentry.
  - by rewrite <- Hentry.
Qed.

Lemma confusion_matrix_counts_witness :
  ∃ matrix,
    get_confusion_matrix [lit "help"; lit "help"; lit "thanks"]
      [lit "help"; lit "help"; lit "help"] = Ok matrix
    ∧ matrix !! lit "help" ≫= (λ row, row !! lit "help") = Some 2
    ∧ matrix !! lit "thanks" ≫= (λ row, row !! lit "help") = None.
Proof.
  destruct (confusion_loop_ok ∅
              (zip [lit "help"; lit "help"; lit "thanks"]
                 [lit "help"; lit "help"; lit "help"])) as (matrix & Hm).
  exists matrix. split; [exact Hm|].
  split.
  - apply (confusion_matrix_counts _ _ matrix (lit "help") (lit "help") Hm).
  - apply (confusion_matrix_counts _ _ matrix (lit "thanks") (lit "help") Hm).
Defined.
